(** * The library backend: resolvers over a document store

    A shallow embedding of the GraphQL resolvers of the book/author
    catalogue.  Two versions of the server are in the repository:

    - [VariantA], [library-backend.js]: bookCount is computed on every read
      of allAuthors, and addBook publishes on a notification channel;
    - [VariantB], the second server file: bookCount is a stored counter that
      addBook increments.

    The document store, the token library and the request pipeline are
    libraries; they are modelled by the few operations the resolvers call.
    The three model files ([models/book], [models/author], [models/user])
    and [utils/config] are not part of the sources at hand: the validation
    they impose and the signing secret are parameters. *)

From Stdlib Require Import List String Ascii ZArith Bool Arith Lia
  Permutation.
Import ListNotations.
Open Scope string_scope.

(** ** Documents *)

(** ObjectIds are generated by the process, one per constructed document. *)
Definition ObjectId := nat.

(** What a Book holds at its [author] path: JavaScript does not type it.
    [library-backend.js] writes the Author's [_id] there.  The second file
    hands [args.author], the name, to the Book constructor, which keeps it
    or, where the schema cannot cast it, leaves the path undefined. *)
Inductive AuthorRef : Type :=
| RefId (i : ObjectId)
| RefName (n : string)
| RefNone.

Record Author : Type := mkAuthor {
  a_id : ObjectId;
  a_name : string;
  a_born : option Z;
  a_bookCount : option Z
}.

Record Book : Type := mkBook {
  b_id : ObjectId;
  b_title : string;
  b_published : Z;
  b_author : AuthorRef;
  b_genres : list string
}.

Record User : Type := mkUser {
  u_id : ObjectId;
  u_username : string;
  u_favoriteGenre : string
}.

(** A Book as allBooks hands it out: the document, and the id and name
    found on its author when the author was populated. *)
Record BookObj : Type := mkBookObj {
  bo_doc : Book;
  bo_author : option (ObjectId * string)
}.

(** The Book that addBook of [library-backend.js] returns and publishes.
    It is the saved document, but the author it holds is the ObjectID object
    it shares with the Author's [_id]: the resolver sets [name] on that
    object and then assigns to its [id], which overwrites the bytes of the
    id.  What the object still shows is the Book's own fields and the name
    on its author. *)
Record AddedBook : Type := mkAddedBook {
  ab_id : ObjectId;
  ab_title : string;
  ab_published : Z;
  ab_genres : list string;
  ab_author_name : string
}.

(** A save that was started and not awaited. *)
Inductive Write : Type :=
| SaveAuthor (a : Author)
| ResaveAuthor (a : Author)
| SaveBook (b : Book).

Record Token : Type := mkToken { value : string }.

Record Payload : Type := mkPayload {
  p_username : string;
  p_id : ObjectId
}.

(** ** Arguments, as the schema types them *)

Record AllBooksArgs : Type := mkAllBooksArgs {
  q_author : option string;
  q_genre : option string
}.

Record AddBookArgs : Type := mkAddBookArgs {
  title : string;
  published : Z;
  author : string;
  genres : list string
}.

Record EditAuthorArgs : Type := mkEditAuthorArgs {
  name : string;
  setBornTo : Z
}.

Record CreateUserArgs : Type := mkCreateUserArgs {
  username : string;
  favoriteGenre : string
}.

Record LoginArgs : Type := mkLoginArgs {
  l_username : string;
  password : string
}.

Inductive Args : Type :=
| ArgsAddBook (a : AddBookArgs)
| ArgsEditAuthor (a : EditAuthorArgs)
| ArgsCreateUser (a : CreateUserArgs).

(** ** Errors and results *)

Inductive Error : Type :=
| AuthenticationError (message : string)
| UserInputError (message : string) (invalidArgs : option Args)
| ValidationError (message : string)
| ReferenceError (message : string)
| TypeError (message : string)
| JsonWebTokenError (message : string).

Definition message (e : Error) : string :=
  match e with
  | AuthenticationError m | UserInputError m _ | ValidationError m
  | ReferenceError m | TypeError m | JsonWebTokenError m => m
  end.

Inductive Result (A : Type) : Type :=
| Ok (a : A)
| Throw (e : Error).
Arguments Ok {A} a.
Arguments Throw {A} e.

(** ** The store and the process state *)

Record Db : Type := mkDb {
  authorDocs : list Author;
  bookDocs : list Book;
  userDocs : list User
}.

(** [next_oid] is the ObjectId generator; [pubsub] is the log of payloads
    published under BOOK_ADDED, oldest first; [pending] holds the saves that
    were started without await and have not reached the store yet. *)
Record State : Type := mkState {
  db : Db;
  next_oid : nat;
  pubsub : list AddedBook;
  pending : list Write
}.

Definition init : State := mkState (mkDb [] [] []) 0 [] [].

Definition set_db (d : Db) (s : State) : State :=
  mkState d (next_oid s) (pubsub s) (pending s).

Record Context : Type := mkContext { currentUser : option User }.

Record Request : Type := mkRequest { authorization : option string }.

(** ** A resolver is a stateful computation that may throw *)

Definition M (A : Type) : Type := State -> Result A * State.

Definition ret {A} (a : A) : M A := fun s => (Ok a, s).

Definition bind {A B} (m : M A) (k : A -> M B) : M B :=
  fun s => match m s with
           | (Ok a, s') => k a s'
           | (Throw e, s') => (Throw e, s')
           end.

Definition throw {A} (e : Error) : M A := fun s => (Throw e, s).

(** try/catch: what was written before the throw stays written. *)
Definition try_catch {A} (m : M A) (h : Error -> M A) : M A :=
  fun s => match m s with
           | (Ok a, s') => (Ok a, s')
           | (Throw e, s') => h e s'
           end.

(** A save nobody awaits: the resolver goes on at once, and the write is left
    pending.  It reaches the store later, if ever (see [land]). *)
Definition detached (w : Write) : M unit :=
  fun s => (Ok tt, mkState (db s) (next_oid s) (pubsub s) (pending s ++ [w])).

Notation "x <- m ;; k" := (bind m (fun x => k))
  (at level 61, m at next level, right associativity).
Notation "m ;;; k" := (bind m (fun _ => k))
  (at level 61, right associativity).

Definition get_db : M Db := fun s => (Ok (db s), s).

Definition fresh_oid : M ObjectId :=
  fun s => (Ok (next_oid s),
            mkState (db s) (S (next_oid s)) (pubsub s) (pending s)).

Definition publish (b : AddedBook) : M unit :=
  fun s => (Ok tt,
            mkState (db s) (next_oid s) (pubsub s ++ [b]) (pending s)).

(** ** The models: what the data layer accepts *)

(** Each validator sees the collection and the document to be written and
    answers [None] to accept or [Some msg], the message of the validation
    error.  [castName] is what the Book constructor leaves at the author
    path when it is handed a name: the name itself where the schema takes a
    string, nothing where the schema wants a reference and the name is no
    id. *)
Record Models : Type := mkModels {
  validateAuthor : list Author -> Author -> option string;
  validateBook : list Book -> Book -> option string;
  validateUser : list User -> User -> option string;
  castName : string -> AuthorRef
}.

(** The token library and the signing secret of [utils/config]. *)
Record Jwt : Type := mkJwt {
  sign : Payload -> string -> string;
  verify : string -> string -> option Payload;
  SECRET : string
}.

Definition permissive : Models :=
  mkModels (fun _ _ => None) (fun _ _ => None) (fun _ _ => None) RefName.

(** Modelled from the spec: the schema of [models/book], which is not in the
    sources.  The data model gives a Book an author that is a "reference to
    Author, required": the constructor drops a name handed to it at that
    path, and a Book whose author path holds anything but an id is refused.
    Authors and Users carry all their required fields by construction. *)
Definition specModels : Models :=
  mkModels (fun _ _ => None)
           (fun _ b => match b_author b with
                       | RefId _ => None
                       | RefName _ | RefNone =>
                           Some "Book validation failed: author"
                       end)
           (fun _ _ => None)
           (fun _ => RefNone).

(** A stand-in token library for concrete runs: the id in unary, a dot, the
    username.  It ignores the secret. *)
Fixpoint unary (n : nat) (rest : string) : string :=
  match n with
  | O => String "." rest
  | S k => String "I" (unary k rest)
  end.

Fixpoint parse_unary (t : string) : option (nat * string) :=
  match t with
  | EmptyString => None
  | String c r =>
      if Ascii.eqb c "." then Some (O, r)
      else if Ascii.eqb c "I" then
             match parse_unary r with
             | Some (n, u) => Some (S n, u)
             | None => None
             end
           else None
  end.

Definition toyJwt : Jwt :=
  mkJwt (fun p _ => unary (p_id p) (p_username p))
        (fun t _ => match parse_unary t with
                    | Some (n, u) => Some (mkPayload u n)
                    | None => None
                    end)
        "secret".

(** ** The store operations the resolvers call *)

(** [Author.findOne({ name: v })].  With [v] undefined the filter reaches the
    store as [{ name: null }], which matches documents without a name only;
    every Author document has one. *)
Definition Author_findOne (v : option string) (d : Db) : option Author :=
  match v with
  | Some n => find (fun a => String.eqb (a_name a) n) (authorDocs d)
  | None => None
  end.

(** [Author.find({ name: { $in: v } })]: a value that is not an array is
    wrapped in one. *)
Definition Author_find_name_in (v : string) (d : Db) : list Author :=
  filter (fun a => String.eqb (a_name a) v) (authorDocs d).

Definition User_findOne (n : string) (d : Db) : option User :=
  find (fun u => String.eqb (u_username u) n) (userDocs d).

Definition User_findById (i : ObjectId) (d : Db) : option User :=
  find (fun u => Nat.eqb (u_id u) i) (userDocs d).

(** The string values a Book document has at a path.  The schema's paths
    are those of the type Book ([title], [genres], ...); a document has no
    others, so a filter on any other path, such as [genre], matches no
    document. *)
Definition book_path (path : string) (b : Book) : list string :=
  if String.eqb path "title" then [b_title b]
  else if String.eqb path "genres" then b_genres b
  else [].

(** [Book.find({ path: { $in: vals } })] *)
Definition Book_find_in (path : string) (vals : list string) (d : Db)
  : list Book :=
  filter (fun b => existsb (fun x => existsb (String.eqb x) vals)
                           (book_path path b))
         (bookDocs d).

(** [_id.equals(x)]: an id equals an id; a name is not an id. *)
Definition equals (i : ObjectId) (x : AuthorRef) : bool :=
  match x with
  | RefId j => Nat.eqb i j
  | RefName _ | RefNone => false
  end.

(** [populate('author', { name: 1 })] *)
Definition populate (d : Db) (b : Book) : BookObj :=
  mkBookObj b
    (match b_author b with
     | RefId i =>
         match find (fun a => Nat.eqb (a_id a) i) (authorDocs d) with
         | Some a => Some (a_id a, a_name a)
         | None => None
         end
     | RefName _ | RefNone => None
     end).

(** Replace the first document with the given id. *)
Fixpoint update_by_id (i : ObjectId) (f : Author -> Author)
  (l : list Author) : list Author :=
  match l with
  | [] => []
  | a :: r => if Nat.eqb (a_id a) i then f a :: r
              else a :: update_by_id i f r
  end.

(** The element at position [k] of a list, and the list without it. *)
Fixpoint remove_nth {A} (k : nat) (l : list A) : option (A * list A) :=
  match l, k with
  | [], _ => None
  | x :: r, O => Some (x, r)
  | x :: r, S k' =>
      match remove_nth k' r with
      | Some (y, r') => Some (y, x :: r')
      | None => None
      end
  end.

Section Store.
Variable models : Models.

(** [doc.save()] of a new Author, Book, User *)
Definition Author_save (a : Author) : M Author :=
  fun s =>
    let d := db s in
    match validateAuthor models (authorDocs d) a with
    | None => (Ok a, set_db (mkDb (authorDocs d ++ [a]) (bookDocs d)
                                  (userDocs d)) s)
    | Some msg => (Throw (ValidationError msg), s)
    end.

Definition Book_save (b : Book) : M Book :=
  fun s =>
    let d := db s in
    match validateBook models (bookDocs d) b with
    | None => (Ok b, set_db (mkDb (authorDocs d) (bookDocs d ++ [b])
                                  (userDocs d)) s)
    | Some msg => (Throw (ValidationError msg), s)
    end.

Definition User_save (u : User) : M User :=
  fun s =>
    let d := db s in
    match validateUser models (userDocs d) u with
    | None => (Ok u, set_db (mkDb (authorDocs d) (bookDocs d)
                                  (userDocs d ++ [u])) s)
    | Some msg => (Throw (ValidationError msg), s)
    end.

(** [doc.save()] of an Author that was read from the store and changed *)
Definition Author_resave (a : Author) : M Author :=
  fun s =>
    let d := db s in
    match validateAuthor models (authorDocs d) a with
    | None => (Ok a, set_db (mkDb (update_by_id (a_id a) (fun _ => a)
                                                (authorDocs d))
                                  (bookDocs d) (userDocs d)) s)
    | Some msg => (Throw (ValidationError msg), s)
    end.

(** A pending write reaches the store: the save runs against the store as it
    is then, and its rejection is seen by nobody. *)
Definition land_write (w : Write) (s : State) : State :=
  match w with
  | SaveAuthor a => snd (Author_save a s)
  | ResaveAuthor a => snd (Author_resave a s)
  | SaveBook b => snd (Book_save b s)
  end.

(** The pending write at position [k] lands. *)
Definition land (k : nat) (s : State) : State :=
  match remove_nth k (pending s) with
  | Some (w, rest) =>
      land_write w (mkState (db s) (next_oid s) (pubsub s) rest)
  | None => s
  end.

Fixpoint land_all (ws : list Write) (s : State) : State :=
  match ws with
  | [] => s
  | w :: rest => land_all rest (land_write w s)
  end.

(** Every pending write lands, the oldest first. *)
Definition settle (s : State) : State :=
  land_all (pending s) (mkState (db s) (next_oid s) (pubsub s) []).
End Store.

(** [Author.findByIdAndUpdate(id, { name, id, born }, { new: true })]: the
    update sets name and born; [id] is no path of the schema; updates run no
    validators. *)
Definition Author_findByIdAndUpdate (i : ObjectId) (n : string) (born : Z)
  : M (option Author) :=
  fun s =>
    let d := db s in
    let upd a := mkAuthor (a_id a) n (Some born) (a_bookCount a) in
    (Ok (option_map upd (find (fun a => Nat.eqb (a_id a) i) (authorDocs d))),
     set_db (mkDb (update_by_id i upd (authorDocs d)) (bookDocs d)
                  (userDocs d)) s).

(** ** Strings *)

(** [toLowerCase] on the characters a header can hold (Latin-1). *)
Definition toLowerCase_char (c : ascii) : ascii :=
  let n := nat_of_ascii c in
  if (Nat.leb 65 n && Nat.leb n 90)
     || (Nat.leb 192 n && Nat.leb n 222 && negb (Nat.eqb n 215))
  then ascii_of_nat (n + 32) else c.

Fixpoint toLowerCase (s : string) : string :=
  match s with
  | EmptyString => EmptyString
  | String c r => String (toLowerCase_char c) (toLowerCase r)
  end.

Fixpoint startsWith (s p : string) : bool :=
  match p, s with
  | EmptyString, _ => true
  | String _ _, EmptyString => false
  | String a p', String b s' => Ascii.eqb a b && startsWith s' p'
  end.

(** [s.substring(n)] *)
Fixpoint substring_from (n : nat) (s : string) : string :=
  match n, s with
  | O, _ => s
  | S _, EmptyString => EmptyString
  | S k, String _ r => substring_from k r
  end.

(** ** Resolvers the two files share, word for word *)

Section Shared.
Variable models : Models.
Variable jwt : Jwt.

Definition bookCount (d : Db) : nat := List.length (bookDocs d).
Definition authorCount (d : Db) : nat := List.length (authorDocs d).

Definition me (ctx : Context) : option User := currentUser ctx.

Definition createUser (args : CreateUserArgs) : M User :=
  i <- fresh_oid ;;
  try_catch (User_save models (mkUser i (username args) (favoriteGenre args)))
    (fun error =>
       throw (UserInputError (message error) (Some (ArgsCreateUser args)))).

Definition login (args : LoginArgs) (d : Db) : Result Token :=
  match User_findOne (l_username args) d with
  | None => Throw (UserInputError "wrong credentials" None)
  | Some user =>
      if negb (String.eqb (password args) "password")
      then Throw (UserInputError "wrong credentials" None)
      else Ok (mkToken (sign jwt (mkPayload (u_username user) (u_id user))
                             (SECRET jwt)))
  end.

(** The [context] function of the server: [None] is [undefined]. *)
Definition context (req : option Request) (d : Db)
  : Result (option Context) :=
  let auth := match req with
              | Some r => authorization r
              | None => None
              end in
  match auth with
  | Some a =>
      if negb (String.eqb a "") && startsWith (toLowerCase a) "bearer "
      then match verify jwt (substring_from 7 a) (SECRET jwt) with
           | Some decodedToken =>
               Ok (Some (mkContext (User_findById (p_id decodedToken) d)))
           | None => Throw (JsonWebTokenError "invalid token")
           end
      else Ok None
  | None => Ok None
  end.

(** The request pipeline hands the resolvers [context || {}]. *)
Definition requestContext (c : option Context) : Context :=
  match c with
  | Some ctx => ctx
  | None => mkContext None
  end.
End Shared.

(** ** What both files do with the filters of allBooks *)

(** The value of an optional string argument when it is truthy. *)
Definition truthy (v : option string) : option string :=
  match v with
  | Some s => if String.eqb s "" then None else Some s
  | None => None
  end.

(** [books]: the identifier is bound nowhere in either file. *)
Definition books : Result (list Book) :=
  Throw (ReferenceError "books is not defined").

(** [book.author === s] *)
Definition author_is (s : string) (book : Book) : bool :=
  match b_author book with
  | RefName n => String.eqb n s
  | RefId _ | RefNone => false
  end.

(** [book.genres.includes(g)] *)
Definition includes (g : string) (l : list string) : bool :=
  existsb (String.eqb g) l.

(** A test [!x] on an array: every array is truthy. *)
Definition array_is_falsy {A} (l : list A) : bool := false.

Definition plain (b : Book) : BookObj := mkBookObj b None.

Definition authenticationError {A} : M A :=
  throw (AuthenticationError "not authenticated").

(** What happens to a server: the mutations, as a client sends them, and the
    landing of a save that was left pending ([OpLand k]: the one at position
    [k]).  [library-backend.js] awaits every save and leaves none
    pending. *)
Inductive Op : Type :=
| OpAddBook (ctx : Context) (args : AddBookArgs)
| OpEditAuthor (ctx : Context) (args : EditAuthorArgs)
| OpCreateUser (args : CreateUserArgs)
| OpLand (k : nat).

(** ** [library-backend.js] *)

Module VariantA.
Section Resolvers.
Variable models : Models.

Definition allBooks (args : AllBooksArgs) (d : Db)
  : Result (list BookObj) :=
  match truthy (q_author args), truthy (q_genre args) with
  | Some a, Some g =>
      match books with
      | Ok bs =>
          let authorBooks := filter (author_is a) bs in
          (* an array's find takes a function, not a filter object *)
          Throw (TypeError "#<Object> is not a function")
      | Throw e => Throw e
      end
  | Some a, None =>
      match books with
      | Ok bs => Ok (map plain (filter (author_is a) bs))
      | Throw e => Throw e
      end
  | None, Some g => Ok (map plain (Book_find_in "genre" [g] d))
  | None, None => Ok (map (populate d) (bookDocs d))
  end.

Definition allAuthors (d : Db) : list Author :=
  let allAuthors := authorDocs d in
  let allBooks := bookDocs d in
  map (fun author =>
         mkAuthor (a_id author) (a_name author) (a_born author)
           (Some (Z.of_nat
              (List.length
                 (filter (fun book => equals (a_id author) (b_author book))
                         allBooks)))))
      allAuthors.

Definition addBook (args : AddBookArgs) (ctx : Context) : M AddedBook :=
  match currentUser ctx with
  | None => authenticationError
  | Some _ =>
      d <- get_db ;;
      let found := Author_findOne (Some (author args)) d in
      try_catch
        (isAuthor <- match found with
                     | None =>
                         i <- fresh_oid ;;
                         Author_save models
                           (mkAuthor i (author args) None None)
                     | Some a => ret a
                     end ;;
         i <- fresh_oid ;;
         let book := mkBook i (title args) (published args)
                            (RefId (a_id isAuthor)) (genres args) in
         Book_save models book ;;;
         (* book.author.name = isAuthor.name; book.author.id = isAuthor._id *)
         let book' := mkAddedBook (b_id book) (b_title book)
                                  (b_published book) (b_genres book)
                                  (a_name isAuthor) in
         publish book' ;;;
         ret book')
        (fun error =>
           throw (UserInputError (message error)
                                 (Some (ArgsAddBook args))))
  end.

(** The resolver ends without a return statement once the update is
    done: its value is undefined, [None].  The message of the TypeError is
    the engine's wording. *)
Definition editAuthor (args : EditAuthorArgs) (ctx : Context)
  : M (option Author) :=
  match currentUser ctx with
  | None => authenticationError
  | Some _ =>
      try_catch
        (d <- get_db ;;
         let found := Author_find_name_in (name args) d in
         if array_is_falsy found then ret None
         else
           match found with
           | [] =>
               throw (TypeError "Cannot read property 'name' of undefined")
           | a0 :: _ =>
               Author_findByIdAndUpdate (a_id a0) (a_name a0)
                                        (setBornTo args) ;;;
               ret None
           end)
        (fun error =>
           throw (UserInputError (message error)
                                 (Some (ArgsEditAuthor args))))
  end.

Definition exec (o : Op) (s : State) : State :=
  match o with
  | OpAddBook ctx args => snd (addBook args ctx s)
  | OpEditAuthor ctx args => snd (editAuthor args ctx s)
  | OpCreateUser args => snd (createUser models args s)
  | OpLand _ => s
  end.

Definition run (ops : list Op) (s : State) : State :=
  fold_left (fun s o => exec o s) ops s.
End Resolvers.
End VariantA.

(** ** The second server file *)

Module VariantB.

Definition allBooks (args : AllBooksArgs) (d : Db) : Result (list Book) :=
  match truthy (q_author args), truthy (q_genre args) with
  | Some a, Some g =>
      match books with
      | Ok bs =>
          let authorBooks := filter (author_is a) bs in
          Ok (filter (fun book => includes g (b_genres book)) authorBooks)
      | Throw e => Throw e
      end
  | Some a, None =>
      match books with
      | Ok bs => Ok (filter (author_is a) bs)
      | Throw e => Throw e
      end
  | None, Some g =>
      (* Book.inventory is undefined *)
      Throw (TypeError "Cannot read property 'find' of undefined")
  | None, None => Ok (bookDocs d)
  end.

Definition allAuthors (d : Db) : list Author := authorDocs d.

(** Neither save is awaited: the resolver answers with the writes pending,
    and a rejection reaches no catch.  The Book is constructed from the
    arguments as they are, so its author path gets what the schema makes of
    the name.  [bookCount += 1] on a count that is undefined is NaN, which
    the store refuses. *)
Definition addBook (models : Models) (args : AddBookArgs) (ctx : Context)
  : M Book :=
  i <- fresh_oid ;;
  let book := mkBook i (title args) (published args)
                     (castName models (author args)) (genres args) in
  match currentUser ctx with
  | None => authenticationError
  | Some _ =>
      d <- get_db ;;
      let isAuthor := Author_findOne (Some (author args)) d in
      try_catch
        (match isAuthor with
         | None =>
             j <- fresh_oid ;;
             detached (SaveAuthor
                         (mkAuthor j (author args) None (Some 1%Z)))
         | Some a =>
             match a_bookCount a with
             | Some n =>
                 detached (ResaveAuthor
                             (mkAuthor (a_id a) (a_name a) (a_born a)
                                       (Some (n + 1)%Z)))
             | None => ret tt
             end
         end ;;;
         detached (SaveBook book))
        (fun error =>
           throw (UserInputError (message error)
                                 (Some (ArgsAddBook args)))) ;;;
      ret book
  end.

(** [args.author]: the arguments of editAuthor are [name] and
    [setBornTo]; the property read here is undefined. *)
Definition args_author (args : EditAuthorArgs) : option string := None.

Definition editAuthor (models : Models) (args : EditAuthorArgs)
  (ctx : Context) : M (option Author) :=
  match currentUser ctx with
  | None => authenticationError
  | Some _ =>
      d <- get_db ;;
      match Author_findOne (args_author args) d with
      | None => ret None
      | Some found =>
          let author := mkAuthor (a_id found) (a_name found)
                                 (Some (setBornTo args))
                                 (a_bookCount found) in
          try_catch
            (detached (ResaveAuthor author))
            (fun error =>
               throw (UserInputError (message error)
                                     (Some (ArgsEditAuthor args)))) ;;;
          ret (Some author)
      end
  end.

Definition exec (models : Models) (o : Op) (s : State) : State :=
  match o with
  | OpAddBook ctx args => snd (addBook models args ctx s)
  | OpEditAuthor ctx args => snd (editAuthor models args ctx s)
  | OpCreateUser args => snd (createUser models args s)
  | OpLand k => land models k s
  end.

Definition run (models : Models) (ops : list Op) (s : State) : State :=
  fold_left (fun s o => exec models o s) ops s.

(** A server whose pending writes all land after each operation, before the
    next one starts. *)
Definition run_settled (models : Models) (ops : list Op) (s : State)
  : State :=
  fold_left (fun s o => settle models (exec models o s)) ops s.
End VariantB.

(** ** Vocabulary of the properties *)

Definition AuthorRef_eq_dec (x y : AuthorRef) : {x = y} + {x <> y}.
Proof. decide equality; [apply Nat.eq_dec | apply string_dec]. Defined.

(** The number of Books whose author reference is the id [i]. *)
Definition booksOf (i : ObjectId) (d : Db) : nat :=
  count_occ AuthorRef_eq_dec (map b_author (bookDocs d)) (RefId i).

(** The Authors of a listing that bear the name [n]. *)
Definition named (n : string) (l : list Author) : list Author :=
  filter (fun a => String.eqb (a_name a) n) l.

(** Every Book's author field holds the id of an Author of the store. *)
Definition refs_resolve (d : Db) : Prop :=
  forall b, In b (bookDocs d) ->
            exists a, In a (authorDocs d) /\ b_author b = RefId (a_id a).

(** The ids in the store were generated already: those of the Authors and
    those the Books refer to. *)
Definition ids_generated (s : State) : Prop :=
  (forall a, In a (authorDocs (db s)) -> a_id a < next_oid s)
  /\ (forall b i, In b (bookDocs (db s)) -> b_author b = RefId i ->
                  i < next_oid s).

Definition succeeds {A} (r : Result A) : Prop := exists a, r = Ok a.

(** ** The scenario of the Hobbit *)

Definition someUser : User := mkUser 0 "reader" "fantasy".
Definition loggedIn : Context := mkContext (Some someUser).
Definition anonymous : Context := mkContext None.

Definition theHobbit : AddBookArgs :=
  mkAddBookArgs "The Hobbit" 1937 "Tolkien" ["fantasy"].
Definition theSilmarillion : AddBookArgs :=
  mkAddBookArgs "The Silmarillion" 1977 "Tolkien" ["fantasy"].

(** A data layer that refuses every write. *)
Definition refusing : Models :=
  mkModels (fun _ _ => Some "validation failed")
           (fun _ _ => Some "validation failed")
           (fun _ _ => Some "validation failed")
           RefName.

(** A data layer whose Author collection has a unique index on the name: it
    refuses an Author document whose name another stored Author bears. *)
Definition uniqueNames : Models :=
  mkModels (fun l a =>
              if existsb (fun x => String.eqb (a_name x) (a_name a)
                                   && negb (Nat.eqb (a_id x) (a_id a))) l
              then Some "Author validation failed: name"
              else None)
           (fun _ _ => None)
           (fun _ _ => None)
           RefName.

(** The state after one authenticated addBook of The Hobbit on the empty
    store, in each file; in the second file, once the writes the call left
    pending have landed. *)
Definition afterHobbitA (models : Models) : State :=
  snd (VariantA.addBook models theHobbit loggedIn init).
Definition afterHobbitB (models : Models) : State :=
  settle models (snd (VariantB.addBook models theHobbit loggedIn init)).

Definition hobbitByName : Book :=
  mkBook 0 "The Hobbit" 1937 (RefName "Tolkien") ["fantasy"].
Definition hobbitWithoutAuthor : Book :=
  mkBook 0 "The Hobbit" 1937 RefNone ["fantasy"].
Definition hobbitById : Book :=
  mkBook 1 "The Hobbit" 1937 (RefId 0) ["fantasy"].

(** A header has the prefix "Bearer " up to the case of its letters. *)
Definition ci_bearer (a : string) : Prop :=
  exists pre rest, a = pre ++ rest /\ toLowerCase pre = "bearer ".

(** The Authorization header of a request, if any. *)
Definition header (req : option Request) : option string :=
  match req with
  | Some r => authorization r
  | None => None
  end.

(** What the resolvers rely on from the token library. *)
Definition verifies_own_tokens (jwt : Jwt) : Prop :=
  forall p, verify jwt (sign jwt p (SECRET jwt)) (SECRET jwt) = Some p.

(** The condition under which login refuses. *)
Definition wrong_credentials (args : LoginArgs) (d : Db) : Prop :=
  (forall u, In u (userDocs d) -> u_username u <> l_username args)
  \/ password args <> "password".

(** ** Vocabulary of the further properties *)

(** The documents addBook constructs: in [library-backend.js] the Author
    without a count, the Book with the Author's id and the object it
    returns; in the second file the Author with the count 1 and the Book
    with what the schema makes of the name. *)
Definition authorA (i : ObjectId) (args : AddBookArgs) : Author :=
  mkAuthor i (author args) None None.
Definition bookA (i : ObjectId) (args : AddBookArgs) (a : Author) : Book :=
  mkBook i (title args) (published args) (RefId (a_id a)) (genres args).
Definition addedA (i : ObjectId) (args : AddBookArgs) (a : Author)
  : AddedBook :=
  mkAddedBook i (title args) (published args) (genres args) (a_name a).
Definition authorB (i : ObjectId) (args : AddBookArgs) : Author :=
  mkAuthor i (author args) None (Some 1%Z).
Definition bookB (models : Models) (i : ObjectId) (args : AddBookArgs)
  : Book :=
  mkBook i (title args) (published args) (castName models (author args))
         (genres args).

Definition with_authors (l : list Author) (d : Db) : Db :=
  mkDb l (bookDocs d) (userDocs d).
Definition with_books (l : list Book) (d : Db) : Db :=
  mkDb (authorDocs d) l (userDocs d).

(** Within each collection the ObjectIds are pairwise distinct, and all of
    them were generated already. *)
Definition ids_unique (s : State) : Prop :=
  NoDup (map a_id (authorDocs (db s)))
  /\ NoDup (map b_id (bookDocs (db s)))
  /\ NoDup (map u_id (userDocs (db s)))
  /\ (forall i, In i (map a_id (authorDocs (db s)) ++
                      map b_id (bookDocs (db s)) ++
                      map u_id (userDocs (db s)))%list -> i < next_oid s).

(** No two Authors bear the same name. *)
Definition names_unique (d : Db) : Prop :=
  NoDup (map a_name (authorDocs d)).

(** The number of Books that hold the name [n] in their author field. *)
Definition booksNamed (n : string) (d : Db) : nat :=
  count_occ AuthorRef_eq_dec (map b_author (bookDocs d)) (RefName n).

(** The stored counters agree with the Books that hold the names, and every
    Book holds the name of an Author. *)
Definition counters_agree (d : Db) : Prop :=
  (forall a, In a (authorDocs d) ->
             a_bookCount a = Some (Z.of_nat (booksNamed (a_name a) d)))
  /\ (forall b, In b (bookDocs d) ->
                exists a, In a (authorDocs d)
                          /\ b_author b = RefName (a_name a)).

(** A data layer that accepts every Author and every Book. *)
Definition accepts_all (models : Models) : Prop :=
  (forall l a, validateAuthor models l a = None)
  /\ (forall l b, validateBook models l b = None).

(** The saves an authenticated addBook of the second file starts, and the
    next id once it has answered. *)
Definition fired_by_addBook_B (models : Models) (args : AddBookArgs)
  (s : State) : list Write :=
  (match Author_findOne (Some (author args)) (db s) with
   | None => [SaveAuthor (authorB (S (next_oid s)) args)]
   | Some a =>
       match a_bookCount a with
       | Some k => [ResaveAuthor (mkAuthor (a_id a) (a_name a) (a_born a)
                                           (Some (k + 1)%Z))]
       | None => []
       end
   end ++ [SaveBook (bookB models (next_oid s) args)])%list.
Definition next_after_addBook_B (args : AddBookArgs) (s : State) : nat :=
  match Author_findOne (Some (author args)) (db s) with
  | None => S (S (next_oid s))
  | Some _ => S (next_oid s)
  end.

(** A Book schema that keeps a name at the author path. *)
Definition keeps_names (models : Models) : Prop :=
  forall n, castName models n = RefName n.

(** The ids of the documents whose first save is pending. *)
Definition pending_author_ids (ws : list Write) : list ObjectId :=
  flat_map (fun w => match w with
                     | SaveAuthor a => [a_id a]
                     | ResaveAuthor _ | SaveBook _ => []
                     end) ws.
Definition pending_book_ids (ws : list Write) : list ObjectId :=
  flat_map (fun w => match w with
                     | SaveBook b => [b_id b]
                     | SaveAuthor _ | ResaveAuthor _ => []
                     end) ws.

(** [ids_unique], with the documents that are still to be stored counted
    in: a pending save of a new document brings an id of its own. *)
Definition ids_fresh (s : State) : Prop :=
  NoDup (map a_id (authorDocs (db s)) ++ pending_author_ids (pending s))
  /\ NoDup (map b_id (bookDocs (db s)) ++ pending_book_ids (pending s))
  /\ NoDup (map u_id (userDocs (db s)))
  /\ (forall i, In i ((map a_id (authorDocs (db s))
                       ++ pending_author_ids (pending s))
                      ++ (map b_id (bookDocs (db s))
                          ++ pending_book_ids (pending s))
                      ++ map u_id (userDocs (db s)))%list ->
                i < next_oid s).

(** What a returned or published Book and a stored Book show of the Book
    itself. *)
Definition shown (out : AddedBook) : ObjectId * string * Z * list string :=
  (ab_id out, ab_title out, ab_published out, ab_genres out).
Definition book_shown (b : Book) : ObjectId * string * Z * list string :=
  (b_id b, b_title b, b_published b, b_genres b).

(** The sum of the bookCounts of a listing; an absent count adds nothing. *)
Definition total_bookCount (l : list Author) : Z :=
  fold_right (fun a acc => match a_bookCount a with
                           | Some k => (k + acc)%Z
                           | None => acc
                           end) 0%Z l.

(** The Authorization header that carries a token. *)
Definition bearer (t : Token) : Request :=
  mkRequest (Some ("Bearer " ++ value t)).

(** A data layer that accepts the Authors and Users and refuses every
    Book. *)
Definition refusingBooks : Models :=
  mkModels (fun _ _ => None)
           (fun _ _ => Some "Book validation failed")
           (fun _ _ => None)
           RefName.

(** [pubsub.asyncIterator(['BOOK_ADDED'])]: a subscriber that connected in
    state [s] has been handed, by state [s'], the payloads published since,
    oldest first. *)
Definition delivered_since (s s' : State) : list AddedBook :=
  skipn (List.length (pubsub s)) (pubsub s').

Definition noFilter : AllBooksArgs := mkAllBooksArgs None None.

(** * Properties *)

(** ** Lists and strings *)

Lemma find_app {A} (f : A -> bool) (l l' : list A) :
  find f (l ++ l') = match find f l with
                     | Some x => Some x
                     | None => find f l'
                     end.
Proof.
  induction l as [|x l IH]; simpl; [reflexivity|].
  destruct (f x); [reflexivity | exact IH].
Qed.

Lemma find_none_all {A} (f : A -> bool) (l : list A) :
  (forall x, In x l -> f x = false) -> find f l = None.
Proof.
  induction l as [|x l IH]; simpl; intros H; [reflexivity|].
  rewrite (H x (or_introl eq_refl)). apply IH. intros y Hy. apply H. now right.
Qed.

Lemma filter_none {A} (f : A -> bool) (l : list A) :
  (forall x, In x l -> f x = false) -> filter f l = [].
Proof.
  induction l as [|x l IH]; simpl; intros H; [reflexivity|].
  rewrite (H x (or_introl eq_refl)). apply IH. intros y Hy. apply H. now right.
Qed.

Lemma toLowerCase_app (s t : string) :
  toLowerCase (s ++ t) = toLowerCase s ++ toLowerCase t.
Proof. induction s as [|c s IH]; simpl; [reflexivity | now rewrite IH]. Qed.

Lemma toLowerCase_length (s : string) :
  String.length (toLowerCase s) = String.length s.
Proof. induction s as [|c s IH]; simpl; [reflexivity | now rewrite IH]. Qed.

Lemma startsWith_app (p r : string) : startsWith (p ++ r) p = true.
Proof.
  induction p as [|c p IH]; simpl; [now destruct r|].
  now rewrite Ascii.eqb_refl, IH.
Qed.

Lemma startsWith_split (p s : string) :
  startsWith s p = true -> exists r, s = p ++ r.
Proof.
  revert s. induction p as [|c p IH]; intros s H.
  - exists s. reflexivity.
  - destruct s as [|b s]; simpl in H; [discriminate|].
    apply andb_true_iff in H. destruct H as [Hc Hs].
    apply Ascii.eqb_eq in Hc. subst b.
    destruct (IH s Hs) as [r ->]. exists r. reflexivity.
Qed.

Lemma toLowerCase_split (s p r : string) :
  toLowerCase s = p ++ r ->
  exists pre rest, s = pre ++ rest /\ toLowerCase pre = p.
Proof.
  revert s. induction p as [|c p IH]; intros s H.
  - exists "", s. split; reflexivity.
  - destruct s as [|b s]; simpl in H; [discriminate|].
    injection H as Hc Hs.
    destruct (IH s Hs) as (pre & rest & -> & Hp).
    exists (String b pre), rest. split; [reflexivity|].
    simpl. now rewrite Hc, Hp.
Qed.

Lemma substring_from_app (p r : string) :
  substring_from (String.length p) (p ++ r) = r.
Proof. induction p as [|c p IH]; simpl; [now destruct r | exact IH]. Qed.

Lemma parse_unary_unary (n : nat) (u : string) :
  parse_unary (unary n u) = Some (n, u).
Proof. induction n as [|n IH]; simpl; [reflexivity | now rewrite IH]. Qed.

Lemma toyJwt_verifies : verifies_own_tokens toyJwt.
Proof.
  intros [u n]. unfold toyJwt. simpl. now rewrite parse_unary_unary.
Qed.

(** ** addBook and the current user *)



(** ** editAuthor of the second file never looks at the name *)



(** ** login *)

(** C8. login refuses with UserInputError "wrong credentials" exactly when
    no User has the given username or the password is not the accepted one;
    otherwise it returns a Token that verifies to the username and the id
    of a User with that username. *)
Theorem login_credentials (jwt : Jwt) (args : LoginArgs) (d : Db) :
  verifies_own_tokens jwt ->
  (login jwt args d = Throw (UserInputError "wrong credentials" None)
   <-> wrong_credentials args d)
  /\ (~ wrong_credentials args d ->
      exists user tok,
        In user (userDocs d)
        /\ u_username user = l_username args
        /\ login jwt args d = Ok tok
        /\ verify jwt (value tok) (SECRET jwt)
           = Some (mkPayload (u_username user) (u_id user))).
Proof.
  intros Hjwt. unfold login, wrong_credentials, User_findOne.
  destruct (find _ (userDocs d)) as [user|] eqn:Hfind.
  - apply find_some in Hfind. destruct Hfind as [Hin Hname].
    apply String.eqb_eq in Hname.
    destruct (String.eqb (password args) "password") eqn:Hpw; simpl.
    + apply String.eqb_eq in Hpw. split.
      * split; [discriminate|].
        intros [Hno | Hne]; [elim (Hno user Hin Hname) | elim (Hne Hpw)].
      * intros _. exists user, (mkToken (sign jwt (mkPayload (u_username user)
                                                    (u_id user)) (SECRET jwt))).
        repeat split; try assumption. apply Hjwt.
    + apply String.eqb_neq in Hpw. split.
      * split; [intros _; now right | reflexivity].
      * intros Hn. elim Hn. now right.
  - split.
    + split; [intros _; left | reflexivity].
      intros u Hu Heq.
      apply (find_none _ _ Hfind) in Hu. apply String.eqb_neq in Hu.
      contradiction.
    + intros Hn. elim Hn. left. intros u Hu Heq.
      apply (find_none _ _ Hfind) in Hu. apply String.eqb_neq in Hu.
      contradiction.
Qed.

Lemma login_credentials_witness :
  exists user tok,
    In user (userDocs (mkDb [] [] [someUser]))
    /\ u_username user = "reader"
    /\ login toyJwt (mkLoginArgs "reader" "password")
             (mkDb [] [] [someUser]) = Ok tok
    /\ verify toyJwt (value tok) (SECRET toyJwt)
       = Some (mkPayload (u_username user) (u_id user)).
Proof.
  apply (login_credentials toyJwt (mkLoginArgs "reader" "password")
           (mkDb [] [] [someUser])).
  - intros [u n]. simpl. rewrite parse_unary_unary. reflexivity.
  - intros [Hno | Hpw].
    + apply (Hno someUser); simpl; auto.
    + apply Hpw. reflexivity.
Defined.

(** ** Context construction *)

Lemma no_bearer_test (a : string) :
  ~ ci_bearer a ->
  negb (String.eqb a "") && startsWith (toLowerCase a) "bearer " = false.
Proof.
  intros Hno.
  destruct (startsWith (toLowerCase a) "bearer ") eqn:Hs;
    [| apply andb_false_r].
  exfalso. apply Hno.
  destruct (startsWith_split _ _ Hs) as [r Hr].
  destruct (toLowerCase_split _ _ _ Hr) as (pre & rest & Ha & Hp).
  exists pre, rest. now split.
Qed.

Lemma bearer_test (pre tok : string) :
  toLowerCase pre = "bearer " ->
  negb (String.eqb (pre ++ tok) "")
  && startsWith (toLowerCase (pre ++ tok)) "bearer " = true
  /\ substring_from 7 (pre ++ tok) = tok.
Proof.
  intros Hp.
  assert (Hlen : String.length pre = 7)
    by (rewrite <- toLowerCase_length, Hp; reflexivity).
  repeat split.
  - apply andb_true_iff. split.
    + destruct pre; [discriminate Hlen | reflexivity].
    + rewrite toLowerCase_app, Hp. apply startsWith_app.
  - rewrite <- Hlen. apply substring_from_app.
Qed.

(** C9. When a request has no Authorization header, or a header without the
    prefix "Bearer " (in any case of letters), the context function throws
    nothing and the resolvers see a context without current user.  When the
    header is such a prefix followed by a token signed with the secret, the
    context carries as currentUser the User found by the id in the token's
    payload. *)
Theorem context_construction (jwt : Jwt) (d : Db) :
  verifies_own_tokens jwt ->
  (forall req,
      match header req with
      | Some a => ~ ci_bearer a
      | None => True
      end ->
      context jwt req d = Ok None
      /\ currentUser (requestContext None) = None)
  /\ (forall pre p,
         toLowerCase pre = "bearer " ->
         context jwt
           (Some (mkRequest (Some (pre ++ sign jwt p (SECRET jwt))))) d
         = Ok (Some (mkContext (User_findById (p_id p) d)))
         /\ (forall u, User_findById (p_id p) d = Some u ->
                       In u (userDocs d) /\ u_id u = p_id p)).
Proof.
  intros Hjwt. split.
  - intros req Hreq. split; [|reflexivity].
    unfold context. unfold header in Hreq.
    destruct req as [[[a|]]|]; simpl in *; try reflexivity.
    now rewrite (no_bearer_test a Hreq).
  - intros pre p Hp. split.
    + unfold context. cbn [authorization].
      destruct (bearer_test pre (sign jwt p (SECRET jwt)) Hp) as [Ht Hsub].
      rewrite Ht, Hsub, Hjwt. reflexivity.
    + intros u Hu. unfold User_findById in Hu.
      apply find_some in Hu. destruct Hu as [Hin Hid].
      apply Nat.eqb_eq in Hid. now split.
Qed.

Lemma context_construction_witness :
  context toyJwt None (mkDb [] [] [someUser]) = Ok None
  /\ context toyJwt (Some (mkRequest (Some "Basic cmVhZGVy")))
             (mkDb [] [] [someUser]) = Ok None
  /\ context toyJwt (Some (mkRequest (Some "BEARER .reader")))
             (mkDb [] [] [someUser])
     = Ok (Some (mkContext (Some someUser))).
Proof.
  destruct (context_construction toyJwt (mkDb [] [] [someUser]))
    as [Hnone Hsome].
  - intros [u n]. simpl. rewrite parse_unary_unary. reflexivity.
  - split; [|split].
    + apply (Hnone None). exact I.
    + apply (Hnone (Some (mkRequest (Some "Basic cmVhZGVy")))). simpl.
      intros (pre & rest & Hsplit & Hlow).
      destruct pre as [|c1 [|c2 pre]]; try discriminate.
      simpl in Hsplit, Hlow. injection Hsplit as _ Hc2 _.
      injection Hlow as _ He _. subst c2. discriminate.
    + destruct (Hsome "BEARER " (mkPayload "reader" 0) eq_refl) as [H _].
      exact H.
Defined.

(** ** The scenario: two books by Tolkien *)

Lemma findOne_absent (n : string) (d : Db) :
  (forall a, In a (authorDocs d) -> a_name a <> n) ->
  Author_findOne (Some n) d = None.
Proof.
  intros H. apply find_none_all. intros a Ha.
  apply String.eqb_neq. now apply H.
Qed.

Lemma named_absent (n : string) (l : list Author) :
  (forall a, In a l -> a_name a <> n) -> named n l = [].
Proof.
  intros H. apply filter_none. intros a Ha.
  apply String.eqb_neq. now apply H.
Qed.

Lemma named_allAuthors_A (n : string) (d : Db) :
  named n (VariantA.allAuthors d)
  = map (fun a => mkAuthor (a_id a) (a_name a) (a_born a)
                    (Some (Z.of_nat (List.length
                       (filter (fun b => equals (a_id a) (b_author b))
                               (bookDocs d))))))
        (named n (authorDocs d)).
Proof.
  unfold VariantA.allAuthors, named.
  induction (authorDocs d) as [|a l IH]; simpl; [reflexivity|].
  destruct (String.eqb (a_name a) n); simpl; now rewrite IH.
Qed.

Lemma no_earlier_book (s : State) :
  ids_generated s ->
  filter (fun b => equals (next_oid s) (b_author b)) (bookDocs (db s)) = [].
Proof.
  intros [_ Hb]. apply filter_none. intros b Hin.
  destruct (b_author b) as [i|n|] eqn:Hr; simpl; try reflexivity.
  apply Nat.eqb_neq. specialize (Hb b i Hin Hr). lia.
Qed.

Lemma update_by_id_fresh (i : ObjectId) (f : Author -> Author)
  (l : list Author) (a : Author) :
  (forall x, In x l -> a_id x <> i) -> a_id a = i ->
  update_by_id i f (l ++ [a]) = (l ++ [f a])%list.
Proof.
  intros Hl Ha. induction l as [|x l IH]; simpl.
  - rewrite Ha, Nat.eqb_refl. reflexivity.
  - destruct (Nat.eqb (a_id x) i) eqn:Hx.
    + apply Nat.eqb_eq in Hx. elim (Hl x (or_introl eq_refl) Hx).
    + rewrite IH; [reflexivity|]. intros y Hy. apply Hl. now right.
Qed.

Ltac step_resolver :=
  unfold VariantA.addBook, VariantB.addBook, VariantA.editAuthor,
    VariantB.editAuthor, createUser, authenticationError, bind, try_catch,
    detached, get_db, fresh_oid, publish, ret, throw, Author_save,
    Author_resave, Book_save, User_save, Author_findByIdAndUpdate, set_db;
  cbn [db next_oid pubsub pending authorDocs bookDocs userDocs fst snd].

Lemma scenario_A (models : Models) (s : State) (ctx : Context)
  (second : AddBookArgs) :
  ids_generated s ->
  (forall a, In a (authorDocs (db s)) -> a_name a <> "Tolkien") ->
  currentUser ctx <> None ->
  author second = "Tolkien" ->
  succeeds (fst (VariantA.addBook models theHobbit ctx s)) ->
  succeeds (fst (VariantA.addBook models second ctx
                   (snd (VariantA.addBook models theHobbit ctx s)))) ->
  named "Tolkien"
    (VariantA.allAuthors (db (snd (VariantA.addBook models theHobbit ctx s))))
  = [mkAuthor (next_oid s) "Tolkien" None (Some 1%Z)]
  /\ named "Tolkien"
       (VariantA.allAuthors
          (db (snd (VariantA.addBook models second ctx
                      (snd (VariantA.addBook models theHobbit ctx s))))))
     = [mkAuthor (next_oid s) "Tolkien" None (Some 2%Z)].
Proof.
  intros Hids Hno Hctx Hsecond.
  destruct (currentUser ctx) as [u|] eqn:Hu; [clear Hctx | now elim Hctx].
  assert (Hnamed := named_absent _ _ Hno).
  assert (Hbooks := no_earlier_book s Hids).
  assert (Hfind : find (fun a => String.eqb (a_name a) "Tolkien")
                       (authorDocs (db s)) = None)
    by (apply (findOne_absent "Tolkien" (db s) Hno)).
  step_resolver. rewrite Hu. unfold Author_findOne.
  cbn [author theHobbit title published genres]. rewrite Hfind.
  cbn [db next_oid pubsub authorDocs bookDocs userDocs fst snd].
  destruct (validateAuthor models _ _) eqn:Hva;
    [intros [x Hx]; discriminate Hx|].
  cbn [db next_oid pubsub authorDocs bookDocs userDocs fst snd a_id a_name].
  destruct (validateBook models (bookDocs (db s)) _) eqn:Hvb;
    [intros [x Hx]; discriminate Hx|].
  cbn [db next_oid pubsub authorDocs bookDocs userDocs fst snd].
  intros _. rewrite Hsecond, find_app, Hfind.
  cbn [find a_name a_id]. rewrite String.eqb_refl.
  cbn [db next_oid pubsub authorDocs bookDocs userDocs fst snd a_id a_name].
  destruct (validateBook models (bookDocs (db s) ++ _) _) eqn:Hvb2;
    [intros [x Hx]; discriminate Hx|].
  cbn [db next_oid pubsub authorDocs bookDocs userDocs fst snd].
  intros _.
  rewrite !named_allAuthors_A.
  cbn [authorDocs bookDocs]. unfold named. rewrite !filter_app.
  fold (named "Tolkien" (authorDocs (db s))). rewrite Hnamed.
  cbn [app filter a_name]. rewrite String.eqb_refl.
  cbn [map a_id a_name a_born]. rewrite !filter_app, Hbooks.
  cbn. rewrite Nat.eqb_refl. split; reflexivity.
Qed.

(** What an authenticated addBook of the second file has done when it
    answers: it has taken one id for the Book, and one more for a new
    Author; the store is as it was; the saves it started are pending. *)
Lemma addBook_B_at_return (models : Models) (args : AddBookArgs)
  (ctx : Context) (s : State) :
  currentUser ctx <> None ->
  VariantB.addBook models args ctx s
  = (Ok (bookB models (next_oid s) args),
     mkState (db s) (next_after_addBook_B args s) (pubsub s)
             (pending s ++ fired_by_addBook_B models args s)).
Proof.
  intros Hctx.
  destruct (currentUser ctx) as [u|] eqn:Hu; [clear Hctx | now elim Hctx].
  step_resolver. rewrite Hu.
  cbn [db next_oid pubsub pending authorDocs bookDocs userDocs fst snd].
  unfold fired_by_addBook_B, next_after_addBook_B, bookB, authorB.
  destruct (Author_findOne (Some (author args)) (db s)) as [a|];
    [destruct (a_bookCount a)|];
    cbn [db next_oid pubsub pending authorDocs bookDocs userDocs fst snd app];
    rewrite <- ?app_assoc; reflexivity.
Qed.

Lemma land_write_keeps (models : Models) (w : Write) (s : State) :
  pending (land_write models w s) = pending s
  /\ next_oid (land_write models w s) = next_oid s
  /\ pubsub (land_write models w s) = pubsub s
  /\ userDocs (db (land_write models w s)) = userDocs (db s).
Proof.
  destruct w as [a|a|b]; unfold land_write, Author_save, Author_resave,
    Book_save, set_db.
  - destruct (validateAuthor models _ _); repeat split.
  - destruct (validateAuthor models _ _); repeat split.
  - destruct (validateBook models _ _); repeat split.
Qed.

Lemma land_all_keeps (models : Models) (ws : list Write) (s : State) :
  pending (land_all models ws s) = pending s
  /\ next_oid (land_all models ws s) = next_oid s
  /\ pubsub (land_all models ws s) = pubsub s
  /\ userDocs (db (land_all models ws s)) = userDocs (db s).
Proof.
  revert s. induction ws as [|w ws IH]; intros s; [repeat split|].
  cbn [land_all]. destruct (IH (land_write models w s)) as (P & N & B & U).
  destruct (land_write_keeps models w s) as (P' & N' & B' & U').
  rewrite P, N, B, U. now repeat split.
Qed.

Lemma settle_nothing_pending (models : Models) (s : State) :
  pending (settle models s) = [].
Proof. unfold settle. now rewrite (proj1 (land_all_keeps models _ _)). Qed.

Lemma settle_settled (models : Models) (s : State) :
  pending s = [] -> settle models s = s.
Proof.
  intros H. unfold settle. rewrite H. cbn [land_all].
  destruct s as [d n p q]. cbn in *. now subst.
Qed.

(** The state after an authenticated addBook of the second file, once the
    writes it started have landed, when nothing else was pending. *)
Lemma addBook_B_settled (models : Models) (args : AddBookArgs) (ctx : Context)
  (s : State) :
  currentUser ctx <> None ->
  pending s = [] ->
  settle models (snd (VariantB.addBook models args ctx s))
  = mkState
      (mkDb
         (match Author_findOne (Some (author args)) (db s) with
          | None =>
              match validateAuthor models (authorDocs (db s))
                                   (authorB (S (next_oid s)) args) with
              | None => authorDocs (db s) ++ [authorB (S (next_oid s)) args]
              | Some _ => authorDocs (db s)
              end
          | Some a =>
              match a_bookCount a with
              | Some k =>
                  let a' := mkAuthor (a_id a) (a_name a) (a_born a)
                                     (Some (k + 1)%Z) in
                  match validateAuthor models (authorDocs (db s)) a' with
                  | None => update_by_id (a_id a) (fun _ => a')
                                         (authorDocs (db s))
                  | Some _ => authorDocs (db s)
                  end
              | None => authorDocs (db s)
              end
          end)
         (match validateBook models (bookDocs (db s))
                             (bookB models (next_oid s) args) with
          | None => bookDocs (db s) ++ [bookB models (next_oid s) args]
          | Some _ => bookDocs (db s)
          end)
         (userDocs (db s)))
      (next_after_addBook_B args s)
      (pubsub s) [].
Proof.
  intros Hctx Hpend.
  rewrite (addBook_B_at_return models args ctx s Hctx).
  unfold settle, fired_by_addBook_B, next_after_addBook_B.
  cbn [snd db next_oid pubsub pending]. rewrite Hpend.
  destruct s as [[au bo us] n p q].
  cbn [db next_oid pubsub pending authorDocs bookDocs userDocs] in *.
  destruct (Author_findOne (Some (author args)) (mkDb au bo us)) as [a|];
    [destruct (a_bookCount a)|];
    cbn [app land_all land_write];
    unfold Author_save, Author_resave, Book_save, set_db;
    cbn [db next_oid pubsub pending authorDocs bookDocs userDocs snd a_id];
    try (destruct (validateAuthor models _ _);
         cbn [db next_oid pubsub pending authorDocs bookDocs userDocs snd]);
    destruct (validateBook models _ _); reflexivity.
Qed.

Lemma scenario_B (models : Models) (s : State) (ctx : Context)
  (second : AddBookArgs) :
  ids_generated s ->
  pending s = [] ->
  (forall a, In a (authorDocs (db s)) -> a_name a <> "Tolkien") ->
  currentUser ctx <> None ->
  author second = "Tolkien" ->
  (forall l a, a_name a = "Tolkien" -> validateAuthor models l a = None) ->
  named "Tolkien"
    (VariantB.allAuthors
       (db (settle models (snd (VariantB.addBook models theHobbit ctx s)))))
  = [mkAuthor (S (next_oid s)) "Tolkien" None (Some 1%Z)]
  /\ named "Tolkien"
       (VariantB.allAuthors
          (db (settle models
                 (snd (VariantB.addBook models second ctx
                         (settle models
                            (snd (VariantB.addBook models theHobbit ctx
                                    s))))))))
     = [mkAuthor (S (next_oid s)) "Tolkien" None (Some 2%Z)].
Proof.
  intros Hids Hpend Hno Hctx Hsecond Hacc.
  assert (Hnamed := named_absent _ _ Hno).
  assert (Hfind : find (fun a => String.eqb (a_name a) "Tolkien")
                       (authorDocs (db s)) = None)
    by (apply (findOne_absent "Tolkien" (db s) Hno)).
  assert (Hfresh : forall x, In x (authorDocs (db s)) ->
                             a_id x <> S (next_oid s)).
  { intros x Hx. destruct Hids as [Ha _]. specialize (Ha x Hx). lia. }
  unfold VariantB.allAuthors.
  rewrite (addBook_B_settled models second ctx _ Hctx
             (settle_nothing_pending models _)).
  rewrite (addBook_B_settled models theHobbit ctx s Hctx Hpend).
  unfold Author_findOne, authorB, next_after_addBook_B.
  cbn [author theHobbit db next_oid pubsub pending authorDocs bookDocs
       userDocs].
  rewrite Hfind, Hsecond. rewrite Hacc by reflexivity.
  cbn [db authorDocs]. rewrite find_app, Hfind.
  cbn [find a_name a_id a_born a_bookCount]. rewrite String.eqb_refl.
  cbv zeta. cbn [a_name a_id a_born a_bookCount].
  rewrite Hacc by reflexivity.
  rewrite update_by_id_fresh; [|exact Hfresh | reflexivity].
  unfold named. rewrite !filter_app.
  fold (named "Tolkien" (authorDocs (db s))). rewrite Hnamed.
  split; reflexivity.
Qed.

(** C6, at the input where the second file departs from it.  The second
    file awaits none of its saves.  Right after the first addBook has
    answered, allAuthors lists no Tolkien: the Author is still on its way to
    the store.  When the second addBook runs then, it finds no Tolkien
    either and starts the save of another one: once the writes have landed,
    the store holds two Authors named Tolkien, each with bookCount 1, and
    two Books; where the data layer keeps the names of the Authors unique,
    the second Author is refused and the one Tolkien has bookCount 1 with
    two Books stored.  When the writes of the first call land before the
    second call, there is one Tolkien with bookCount 2, as in
    [library-backend.js]. *)
Theorem tolkien_scenario_unawaited :
  VariantB.allAuthors
    (db (snd (VariantB.addBook permissive theHobbit loggedIn init))) = []
  /\ pending (snd (VariantB.addBook permissive theHobbit loggedIn init))
     = [SaveAuthor (mkAuthor 1 "Tolkien" None (Some 1%Z));
        SaveBook hobbitByName]
  /\ VariantB.allAuthors
       (db (settle permissive
              (snd (VariantB.addBook permissive theSilmarillion loggedIn
                      (snd (VariantB.addBook permissive theHobbit loggedIn
                              init))))))
     = [mkAuthor 1 "Tolkien" None (Some 1%Z);
        mkAuthor 3 "Tolkien" None (Some 1%Z)]
  /\ List.length
       (bookDocs
          (db (settle permissive
                 (snd (VariantB.addBook permissive theSilmarillion loggedIn
                         (snd (VariantB.addBook permissive theHobbit loggedIn
                                 init))))))) = 2
  /\ VariantB.allAuthors
       (db (settle uniqueNames
              (snd (VariantB.addBook uniqueNames theSilmarillion loggedIn
                      (snd (VariantB.addBook uniqueNames theHobbit loggedIn
                              init))))))
     = [mkAuthor 1 "Tolkien" None (Some 1%Z)]
  /\ List.length
       (bookDocs
          (db (settle uniqueNames
                 (snd (VariantB.addBook uniqueNames theSilmarillion loggedIn
                         (snd (VariantB.addBook uniqueNames theHobbit loggedIn
                                 init))))))) = 2
  /\ VariantB.allAuthors
       (db (settle permissive
              (snd (VariantB.addBook permissive theSilmarillion loggedIn
                      (settle permissive
                         (snd (VariantB.addBook permissive theHobbit loggedIn
                                 init)))))))
     = [mkAuthor 1 "Tolkien" None (Some 2%Z)]
  /\ VariantA.allAuthors
       (db (snd (VariantA.addBook permissive theSilmarillion loggedIn
                   (snd (VariantA.addBook permissive theHobbit loggedIn
                           init)))))
     = [mkAuthor 0 "Tolkien" None (Some 2%Z)].
Proof. repeat split. Qed.

(** X28. The scenario of the two books, where it holds.  From a store
    without an Author named Tolkien, after an authenticated addBook of The
    Hobbit allAuthors lists exactly one Tolkien, with bookCount 1, and after
    a second authenticated addBook with the same author name exactly one,
    with bookCount 2: in [library-backend.js] when both calls succeed; in
    the second file when nothing is pending at the start, the writes of each
    call have landed before what follows, and the data layer accepts the
    Author documents named Tolkien. *)
Theorem tolkien_scenario (models : Models) (s : State) (ctx : Context)
  (second : AddBookArgs) :
  ids_generated s ->
  (forall a, In a (authorDocs (db s)) -> a_name a <> "Tolkien") ->
  currentUser ctx <> None ->
  author second = "Tolkien" ->
  (succeeds (fst (VariantA.addBook models theHobbit ctx s)) ->
   succeeds (fst (VariantA.addBook models second ctx
                    (snd (VariantA.addBook models theHobbit ctx s)))) ->
   named "Tolkien"
     (VariantA.allAuthors
        (db (snd (VariantA.addBook models theHobbit ctx s))))
   = [mkAuthor (next_oid s) "Tolkien" None (Some 1%Z)]
   /\ named "Tolkien"
        (VariantA.allAuthors
           (db (snd (VariantA.addBook models second ctx
                       (snd (VariantA.addBook models theHobbit ctx s))))))
      = [mkAuthor (next_oid s) "Tolkien" None (Some 2%Z)])
  /\ (pending s = [] ->
      (forall l a, a_name a = "Tolkien" -> validateAuthor models l a = None) ->
      named "Tolkien"
        (VariantB.allAuthors
           (db (settle models
                  (snd (VariantB.addBook models theHobbit ctx s)))))
      = [mkAuthor (S (next_oid s)) "Tolkien" None (Some 1%Z)]
      /\ named "Tolkien"
           (VariantB.allAuthors
              (db (settle models
                     (snd (VariantB.addBook models second ctx
                             (settle models
                                (snd (VariantB.addBook models theHobbit ctx
                                        s))))))))
         = [mkAuthor (S (next_oid s)) "Tolkien" None (Some 2%Z)]).
Proof.
  intros Hids Hno Hctx Hsecond. split.
  - intros H1 H2. now apply scenario_A.
  - intros Hpend Hacc. now apply scenario_B.
Qed.

Lemma tolkien_scenario_witness :
  (named "Tolkien"
     (VariantA.allAuthors
        (db (snd (VariantA.addBook permissive theHobbit loggedIn init))))
   = [mkAuthor 0 "Tolkien" None (Some 1%Z)]
   /\ named "Tolkien"
        (VariantA.allAuthors
           (db (snd (VariantA.addBook permissive theSilmarillion loggedIn
                       (snd (VariantA.addBook permissive theHobbit loggedIn
                               init))))))
      = [mkAuthor 0 "Tolkien" None (Some 2%Z)])
  /\ (named "Tolkien"
        (VariantB.allAuthors
           (db (settle permissive
                  (snd (VariantB.addBook permissive theHobbit loggedIn
                          init)))))
      = [mkAuthor 1 "Tolkien" None (Some 1%Z)]
      /\ named "Tolkien"
           (VariantB.allAuthors
              (db (settle permissive
                     (snd (VariantB.addBook permissive theSilmarillion
                             loggedIn
                             (settle permissive
                                (snd (VariantB.addBook permissive theHobbit
                                        loggedIn init))))))))
         = [mkAuthor 1 "Tolkien" None (Some 2%Z)]).
Proof.
  destruct (tolkien_scenario permissive init loggedIn theSilmarillion)
    as [HA HB].
  - split; simpl; [intros ? [] | intros ? ? []].
  - simpl. intros ? [].
  - discriminate.
  - reflexivity.
  - split.
    + apply HA; eexists; reflexivity.
    + apply HB; reflexivity.
Defined.

(** ** bookCount against the Books *)

Lemma referring_count (i : ObjectId) (l : list Book) :
  List.length (filter (fun b => equals i (b_author b)) l)
  = count_occ AuthorRef_eq_dec (map b_author l) (RefId i).
Proof.
  induction l as [|b l IH]; [reflexivity|]. cbn [map filter].
  destruct (AuthorRef_eq_dec (b_author b) (RefId i)) as [E|E].
  - rewrite (count_occ_cons_eq _ _ E), E. cbn [equals].
    rewrite Nat.eqb_refl. cbn [List.length]. f_equal. exact IH.
  - rewrite (count_occ_cons_neq _ _ E).
    destruct (b_author b) as [j|n|]; cbn [equals]; try exact IH.
    destruct (Nat.eqb i j) eqn:Hij; [|exact IH].
    apply Nat.eqb_eq in Hij. subst j. elim E. reflexivity.
Qed.

(** In [library-backend.js] allAuthors lists every Author of the store, in
    order, each with the number of Books that refer to its id, in every
    state of the store. *)
Lemma allAuthors_A_counts (d : Db) :
  VariantA.allAuthors d
  = map (fun a => mkAuthor (a_id a) (a_name a) (a_born a)
                           (Some (Z.of_nat (booksOf (a_id a) d))))
        (authorDocs d).
Proof.
  unfold VariantA.allAuthors, booksOf. apply map_ext. intros a.
  now rewrite referring_count.
Qed.

(** C1, at the input where the second file departs from it.  After one
    authenticated addBook of The Hobbit on the empty store, allAuthors
    reports Tolkien with bookCount 1 while no Book refers to Tolkien's id:
    the Book holds the name where the data layer takes it, and is not stored
    at all where the data layer wants a reference. *)
Theorem bookCount_B_without_reference :
  (VariantB.allAuthors (db (afterHobbitB permissive))
   = [mkAuthor 1 "Tolkien" None (Some 1%Z)]
   /\ bookDocs (db (afterHobbitB permissive)) = [hobbitByName]
   /\ booksOf 1 (db (afterHobbitB permissive)) = 0)
  /\ (VariantB.allAuthors (db (afterHobbitB specModels))
      = [mkAuthor 1 "Tolkien" None (Some 1%Z)]
      /\ bookDocs (db (afterHobbitB specModels)) = []
      /\ booksOf 1 (db (afterHobbitB specModels)) = 0).
Proof. repeat split. Qed.

(** ** The filters of allBooks *)

(** With no filter, allBooks returns every Book of the store in both
    files. *)
Lemma allBooks_unfiltered (d : Db) :
  VariantA.allBooks (mkAllBooksArgs None None) d
  = Ok (map (populate d) (bookDocs d))
  /\ VariantB.allBooks (mkAllBooksArgs None None) d = Ok (bookDocs d).
Proof. split; reflexivity. Qed.

(** X15. Whenever allBooks is given an author filter that is not the empty
    string, with or without a genre filter, both files throw a
    ReferenceError on the unbound [books], whatever the store holds. *)
Lemma allBooks_author_filter_throws (a : string) (g : option string) (d : Db) :
  a <> "" ->
  VariantA.allBooks (mkAllBooksArgs (Some a) g) d
  = Throw (ReferenceError "books is not defined")
  /\ VariantB.allBooks (mkAllBooksArgs (Some a) g) d
     = Throw (ReferenceError "books is not defined").
Proof.
  intros Ha. apply String.eqb_neq in Ha.
  unfold VariantA.allBooks, VariantB.allBooks, truthy. simpl. rewrite Ha.
  destruct g as [g|]; [destruct (String.eqb g "")|]; split; reflexivity.
Qed.

(** C2, at the inputs where the code departs from it.  The store holds The
    Hobbit, a fantasy book by Tolkien.  Filtering by author throws a
    ReferenceError in both files; filtering by genre returns no Book in
    [library-backend.js], which queries the path [genre], and throws a
    TypeError in the second file. *)
Theorem allBooks_filters_fail :
  bookDocs (db (afterHobbitA permissive)) = [hobbitById]
  /\ VariantA.allBooks (mkAllBooksArgs (Some "Tolkien") None)
                       (db (afterHobbitA permissive))
     = Throw (ReferenceError "books is not defined")
  /\ VariantA.allBooks (mkAllBooksArgs None (Some "fantasy"))
                       (db (afterHobbitA permissive))
     = Ok []
  /\ VariantA.allBooks (mkAllBooksArgs (Some "Tolkien") (Some "fantasy"))
                       (db (afterHobbitA permissive))
     = Throw (ReferenceError "books is not defined")
  /\ bookDocs (db (afterHobbitB permissive)) = [hobbitByName]
  /\ VariantB.allBooks (mkAllBooksArgs (Some "Tolkien") None)
                       (db (afterHobbitB permissive))
     = Throw (ReferenceError "books is not defined")
  /\ VariantB.allBooks (mkAllBooksArgs None (Some "fantasy"))
                       (db (afterHobbitB permissive))
     = Throw (TypeError "Cannot read property 'find' of undefined")
  /\ VariantB.allBooks (mkAllBooksArgs (Some "Tolkien") (Some "fantasy"))
                       (db (afterHobbitB permissive))
     = Throw (ReferenceError "books is not defined").
Proof. repeat split. Qed.

(** ** editAuthor *)

(** C3, at the inputs where the code departs from it.  The store holds the
    Author Tolkien.  In [library-backend.js] an unknown name gives a
    UserInputError, not null, and a known name sets born but the call
    returns nothing.  In the second file the known name is not found: the
    call returns null and born stays unset. *)
Theorem editAuthor_departures :
  authorDocs (db (afterHobbitA permissive))
  = [mkAuthor 0 "Tolkien" None None]
  /\ VariantA.editAuthor (mkEditAuthorArgs "Nobody" 1900) loggedIn
                         (afterHobbitA permissive)
     = (Throw (UserInputError "Cannot read property 'name' of undefined"
                 (Some (ArgsEditAuthor (mkEditAuthorArgs "Nobody" 1900)))),
        afterHobbitA permissive)
  /\ fst (VariantA.editAuthor (mkEditAuthorArgs "Tolkien" 1892) loggedIn
                              (afterHobbitA permissive))
     = Ok None
  /\ authorDocs (db (snd (VariantA.editAuthor
                            (mkEditAuthorArgs "Tolkien" 1892) loggedIn
                            (afterHobbitA permissive))))
     = [mkAuthor 0 "Tolkien" (Some 1892%Z) None]
  /\ authorDocs (db (afterHobbitB permissive))
     = [mkAuthor 1 "Tolkien" None (Some 1%Z)]
  /\ VariantB.editAuthor permissive (mkEditAuthorArgs "Tolkien" 1892)
                         loggedIn (afterHobbitB permissive)
     = (Ok None, afterHobbitB permissive).
Proof. repeat split. Qed.

(** ** addBook in [library-backend.js] *)

(** An authenticated addBook either stores the Book, with the id of an
    Author of that name in its author field, and publishes and returns it
    with that name on its author; or it throws a UserInputError that carries
    the arguments, and then no Book is stored and nothing is published.  No
    Author leaves the store either way. *)
Lemma addBook_A_outcome (models : Models) (args : AddBookArgs) (ctx : Context)
  (s : State) :
  currentUser ctx <> None ->
  (forall x, In x (authorDocs (db s)) ->
             In x (authorDocs (db (snd (VariantA.addBook models args ctx s)))))
  /\ ((exists a i,
          let book := mkBook i (title args) (published args)
                             (RefId (a_id a)) (genres args) in
          let out := mkAddedBook i (title args) (published args)
                                 (genres args) (a_name a) in
          fst (VariantA.addBook models args ctx s) = Ok out
          /\ a_name a = author args
          /\ In a (authorDocs (db (snd (VariantA.addBook models args ctx s))))
          /\ bookDocs (db (snd (VariantA.addBook models args ctx s)))
             = (bookDocs (db s) ++ [book])%list
          /\ pubsub (snd (VariantA.addBook models args ctx s))
             = (pubsub s ++ [out])%list)
      \/ (exists msg,
             fst (VariantA.addBook models args ctx s)
             = Throw (UserInputError msg (Some (ArgsAddBook args)))
             /\ bookDocs (db (snd (VariantA.addBook models args ctx s)))
                = bookDocs (db s)
             /\ pubsub (snd (VariantA.addBook models args ctx s))
                = pubsub s)).
Proof.
  intros Hctx.
  destruct (currentUser ctx) as [u|] eqn:Hu; [clear Hctx | now elim Hctx].
  step_resolver. rewrite Hu. unfold Author_findOne.
  destruct (find _ (authorDocs (db s))) as [a|] eqn:Hfind.
  - apply find_some in Hfind. destruct Hfind as [Hin Hname].
    apply String.eqb_eq in Hname.
    cbn [db next_oid pubsub pending authorDocs bookDocs userDocs fst snd].
    destruct (validateBook models _ _) as [msg|];
      cbn [db next_oid pubsub pending authorDocs bookDocs userDocs fst snd
           message b_id b_title b_published b_genres].
    + split; [auto|]. right. exists msg. auto.
    + split; [auto|]. left. exists a, (next_oid s). cbn zeta. auto.
  - cbn [db next_oid pubsub pending authorDocs bookDocs userDocs fst snd].
    destruct (validateAuthor models _ _) as [msg|];
      cbn [db next_oid pubsub pending authorDocs bookDocs userDocs fst snd
           message b_id b_title b_published b_genres].
    + split; [auto|]. right. exists msg. auto.
    + destruct (validateBook models _ _) as [msg|];
        cbn [db next_oid pubsub pending authorDocs bookDocs userDocs fst snd
             message b_id b_title b_published b_genres a_id a_name].
      * split; [intros x Hx; apply in_or_app; now left|].
        right. exists msg. auto.
      * split; [intros x Hx; apply in_or_app; now left|].
        left. exists (mkAuthor (next_oid s) (author args) None None),
               (S (next_oid s)).
        cbn zeta. cbn [a_id a_name]. repeat split.
        apply in_or_app. right. now left.
Qed.

(** ** addBook in the second file *)

(** X23. An authenticated addBook of the second file always answers with
    the Book it constructed: a fresh id, the title, year and genres of the
    arguments, and at the author path what the schema makes of the name.  It
    never throws, whatever the data layer will answer to the saves; and when
    it answers, the store is as it was before the call. *)
Lemma addBook_B_returns (models : Models) (args : AddBookArgs) (ctx : Context)
  (s : State) :
  currentUser ctx <> None ->
  fst (VariantB.addBook models args ctx s)
  = Ok (mkBook (next_oid s) (title args) (published args)
               (castName models (author args)) (genres args))
  /\ db (snd (VariantB.addBook models args ctx s)) = db s.
Proof.
  intros Hctx. rewrite (addBook_B_at_return models args ctx s Hctx).
  split; reflexivity.
Qed.

(** C5, at the input where the second file departs from it.  After one
    authenticated addBook of The Hobbit on the empty store: where the data
    layer takes any Book, the stored Book holds the name "Tolkien" in its
    author field, which is the id of no Author; where the data layer wants a
    reference, the call returns the Book, with no author, and none is
    stored. *)
Theorem addBook_B_author_field :
  (bookDocs (db (afterHobbitB permissive)) = [hobbitByName]
   /\ authorDocs (db (afterHobbitB permissive))
      = [mkAuthor 1 "Tolkien" None (Some 1%Z)]
   /\ ~ refs_resolve (db (afterHobbitB permissive)))
  /\ (fst (VariantB.addBook specModels theHobbit loggedIn init)
      = Ok hobbitWithoutAuthor
      /\ bookDocs (db (afterHobbitB specModels)) = []).
Proof.
  repeat split.
  intros H. destruct (H hobbitByName (or_introl eq_refl)) as (a & _ & Ha).
  discriminate Ha.
Qed.

(** C7, at the input where the second file departs from it.  When the data
    layer refuses the Book (it wants a reference in the author field), or
    refuses every write, its addBook throws no UserInputError: it
    returns the Book, and the Book is not in the store.  On the latter
    input [library-backend.js] throws the UserInputError with the
    arguments. *)
Theorem addBook_B_lost_rejection :
  (fst (VariantB.addBook specModels theHobbit loggedIn init)
   = Ok hobbitWithoutAuthor
   /\ bookDocs (db (afterHobbitB specModels)) = [])
  /\ (fst (VariantB.addBook refusing theHobbit loggedIn init) = Ok hobbitByName
      /\ db (afterHobbitB refusing) = db init)
  /\ VariantA.addBook refusing theHobbit loggedIn init
     = (Throw (UserInputError "validation failed"
                 (Some (ArgsAddBook theHobbit))),
        mkState (db init) 1 [] []).
Proof. repeat split. Qed.

(** ** Invariants of the store *)

Lemma update_by_id_ids (i : ObjectId) (f : Author -> Author)
  (l : list Author) :
  (forall x, a_id x = i -> a_id (f x) = i) ->
  map a_id (update_by_id i f l) = map a_id l.
Proof.
  intros Hf. induction l as [|a l IH]; simpl; [reflexivity|].
  destruct (Nat.eqb (a_id a) i) eqn:Ha; simpl.
  - apply Nat.eqb_eq in Ha. now rewrite (Hf a Ha), Ha.
  - now rewrite IH.
Qed.

Lemma ids_generated_mono (s s' : State) :
  ids_generated s ->
  next_oid s <= next_oid s' ->
  (forall a, In a (authorDocs (db s')) ->
             In (a_id a) (map a_id (authorDocs (db s)))
             \/ a_id a < next_oid s') ->
  (forall b, In b (bookDocs (db s')) ->
             In b (bookDocs (db s))
             \/ forall i, b_author b = RefId i -> i < next_oid s') ->
  ids_generated s'.
Proof.
  intros [Ha Hb] Hle Ha' Hb'. split.
  - intros a Hin. destruct (Ha' a Hin) as [H|H]; [|exact H].
    apply in_map_iff in H. destruct H as (x & Hx & Hxin).
    rewrite <- Hx. specialize (Ha x Hxin). lia.
  - intros b i Hin Hr. destruct (Hb' b Hin) as [H|H]; [|now apply H].
    specialize (Hb b i H Hr). lia.
Qed.

Ltac same_ids := intros ? ?; left; now apply in_map.
Ltac same_books := intros ? ?; now left.

Lemma ids_generated_init : ids_generated init.
Proof. split; simpl; [intros ? [] | intros ? ? []]. Qed.

Lemma ids_generated_createUser (models : Models) (args : CreateUserArgs)
  (s : State) :
  ids_generated s -> ids_generated (snd (createUser models args s)).
Proof.
  intros H. apply (ids_generated_mono s _ H); step_resolver;
    destruct (validateUser models _ _);
    cbn [db next_oid pubsub authorDocs bookDocs userDocs fst snd];
    solve [lia | same_ids | same_books].
Qed.

Lemma ids_generated_addBook_A (models : Models) (args : AddBookArgs)
  (ctx : Context) (s : State) :
  ids_generated s -> ids_generated (snd (VariantA.addBook models args ctx s)).
Proof.
  intros H. step_resolver.
  destruct (currentUser ctx); [|exact H]. unfold Author_findOne.
  destruct (find _ (authorDocs (db s))) as [a|] eqn:Hfind;
    cbn [db next_oid pubsub authorDocs bookDocs userDocs fst snd].
  - apply find_some in Hfind. destruct Hfind as [Hin _].
    destruct (validateBook models _ _);
      cbn [db next_oid pubsub authorDocs bookDocs userDocs fst snd];
      apply (ids_generated_mono s _ H);
      cbn [db next_oid pubsub authorDocs bookDocs userDocs];
      try solve [lia | same_ids | same_books].
    intros b Hb. apply in_app_or in Hb. destruct Hb as [Hb|[<-|[]]];
      [now left | right].
    cbn [b_author]. intros i [= <-]. destruct H as [Ha _].
    specialize (Ha a Hin). lia.
  - destruct (validateAuthor models _ _);
      cbn [db next_oid pubsub authorDocs bookDocs userDocs fst snd].
    + apply (ids_generated_mono s _ H);
        cbn [db next_oid pubsub authorDocs bookDocs userDocs];
        solve [lia | same_ids | same_books].
    + assert (Hnew : forall x,
                 In x (authorDocs (db s)
                       ++ [mkAuthor (next_oid s) (author args) None None]) ->
                 In (a_id x) (map a_id (authorDocs (db s)))
                 \/ a_id x < S (S (next_oid s))).
      { intros x Hx. apply in_app_or in Hx. destruct Hx as [Hx|[<-|[]]];
          [left; now apply in_map | right; cbn [a_id]; lia]. }
      destruct (validateBook models _ _);
        cbn [db next_oid pubsub authorDocs bookDocs userDocs fst snd a_id];
        apply (ids_generated_mono s _ H);
        cbn [db next_oid pubsub authorDocs bookDocs userDocs];
        try solve [lia | exact Hnew | same_books].
      intros b Hb. apply in_app_or in Hb. destruct Hb as [Hb|[<-|[]]];
        [now left | right].
      cbn [b_author]. intros i [= <-]. lia.
Qed.

Lemma ids_generated_editAuthor_A (args : EditAuthorArgs) (ctx : Context)
  (s : State) :
  ids_generated s -> ids_generated (snd (VariantA.editAuthor args ctx s)).
Proof.
  intros H. step_resolver. unfold array_is_falsy.
  destruct (currentUser ctx); [|exact H].
  destruct (Author_find_name_in (name args) (db s)) as [|a0 l];
    cbn [db next_oid pubsub authorDocs bookDocs userDocs fst snd];
    [exact H|].
  apply (ids_generated_mono s _ H);
    cbn [db next_oid pubsub authorDocs bookDocs userDocs];
    try solve [lia | same_books].
  intros a Ha. left. apply (in_map a_id) in Ha.
  now rewrite update_by_id_ids in Ha.
Qed.

(** The ids of every state [library-backend.js] can reach were generated
    before. *)
Lemma ids_generated_run_A (models : Models) (ops : list Op) (s : State) :
  ids_generated s -> ids_generated (VariantA.run models ops s).
Proof.
  revert s. induction ops as [|o ops IH]; intros s H; [exact H|].
  apply IH. destruct o as [ctx args|ctx args|args|k]; cbn [VariantA.exec].
  - now apply ids_generated_addBook_A.
  - now apply ids_generated_editAuthor_A.
  - now apply ids_generated_createUser.
  - exact H.
Qed.

Lemma editAuthor_B_finds_nothing (models : Models) (args : EditAuthorArgs)
  (ctx : Context) (s : State) :
  snd (VariantB.editAuthor models args ctx s) = s
  /\ (currentUser ctx <> None ->
      fst (VariantB.editAuthor models args ctx s) = Ok None).
Proof.
  unfold VariantB.editAuthor, VariantB.args_author.
  destruct (currentUser ctx); split; try reflexivity.
  intros H. now elim H.
Qed.

Lemma refs_resolve_step (d d' : Db) :
  refs_resolve d ->
  (forall a, In a (authorDocs d) ->
             In (a_id a) (map a_id (authorDocs d'))) ->
  (forall b, In b (bookDocs d') ->
             In b (bookDocs d)
             \/ exists a, In a (authorDocs d') /\ b_author b = RefId (a_id a)) ->
  refs_resolve d'.
Proof.
  intros Hd Ha Hb b Hin. destruct (Hb b Hin) as [Hold|Hnew]; [|exact Hnew].
  destruct (Hd b Hold) as (a & Hain & Hr).
  apply Ha, in_map_iff in Hain. destruct Hain as (a' & Hid & Hin').
  exists a'. split; [exact Hin'|]. now rewrite Hid.
Qed.

Lemma refs_resolve_addBook_A (models : Models) (args : AddBookArgs)
  (ctx : Context) (s : State) :
  refs_resolve (db s) ->
  refs_resolve (db (snd (VariantA.addBook models args ctx s))).
Proof.
  intros H. destruct (currentUser ctx) as [u|] eqn:Hu.
  - assert (Hctx : currentUser ctx <> None) by (rewrite Hu; discriminate).
    destruct (addBook_A_outcome models args ctx s Hctx) as [Hmono Hout].
    apply (refs_resolve_step (db s) _ H).
    + intros a Ha. apply in_map. now apply Hmono.
    + intros b Hb.
      destruct Hout as [(a & i & _ & _ & Hin & Hbooks & _)
                       |(msg & _ & Hbooks & _)];
        rewrite Hbooks in Hb; [|now left].
      apply in_app_or in Hb. destruct Hb as [Hb|[<-|[]]]; [now left|].
      right. exists a. now split.
  - unfold VariantA.addBook. rewrite Hu. exact H.
Qed.

Lemma refs_resolve_editAuthor_A (args : EditAuthorArgs) (ctx : Context)
  (s : State) :
  refs_resolve (db s) ->
  refs_resolve (db (snd (VariantA.editAuthor args ctx s))).
Proof.
  intros H. step_resolver. unfold array_is_falsy.
  destruct (currentUser ctx); [|exact H].
  destruct (Author_find_name_in (name args) (db s)) as [|a0 l];
    cbn [db next_oid pubsub authorDocs bookDocs userDocs fst snd];
    [exact H|].
  apply (refs_resolve_step (db s) _ H); cbn [authorDocs bookDocs].
  - intros a Ha. rewrite update_by_id_ids; [now apply in_map | easy].
  - intros b Hb. now left.
Qed.

Lemma refs_resolve_createUser (models : Models) (args : CreateUserArgs)
  (s : State) :
  refs_resolve (db s) -> refs_resolve (db (snd (createUser models args s))).
Proof.
  intros H. step_resolver. destruct (validateUser models _ _); exact H.
Qed.

(** In every state [library-backend.js] can reach from the empty store,
    every Book's author field holds the id of an Author of the store. *)
Lemma refs_resolve_run_A (models : Models) (ops : list Op) :
  refs_resolve (db (VariantA.run models ops init)).
Proof.
  assert (G : forall s, refs_resolve (db s) ->
                        refs_resolve (db (VariantA.run models ops s))).
  { induction ops as [|o ops IH]; intros s H; [exact H|].
    apply IH. destruct o as [ctx args|ctx args|args|k]; cbn [VariantA.exec].
    - now apply refs_resolve_addBook_A.
    - now apply refs_resolve_editAuthor_A.
    - now apply refs_resolve_createUser.
    - exact H. }
  apply G. intros b [].
Qed.

(** In every state [library-backend.js] can reach, allAuthors reports for
    each Author the number of Books that refer to its id. *)
Lemma bookCount_run_A (models : Models) (ops : list Op) (a : Author) :
  In a (VariantA.allAuthors (db (VariantA.run models ops init))) ->
  a_bookCount a
  = Some (Z.of_nat (booksOf (a_id a) (db (VariantA.run models ops init)))).
Proof.
  rewrite allAuthors_A_counts. intros Hin.
  apply in_map_iff in Hin. destruct Hin as (x & <- & _). reflexivity.
Qed.

(** * Further properties of the resolvers *)

(** ** What each mutation does to the state *)

Lemma addBook_A_cases (models : Models) (args : AddBookArgs) (ctx : Context)
  (s : State) :
  currentUser ctx <> None ->
  (exists a,
      Author_findOne (Some (author args)) (db s) = Some a
      /\ ((exists msg,
              validateBook models (bookDocs (db s))
                           (bookA (next_oid s) args a) = Some msg
              /\ VariantA.addBook models args ctx s
                 = (Throw (UserInputError msg (Some (ArgsAddBook args))),
                    mkState (db s) (S (next_oid s)) (pubsub s) (pending s)))
          \/ (validateBook models (bookDocs (db s))
                           (bookA (next_oid s) args a) = None
              /\ VariantA.addBook models args ctx s
                 = (Ok (addedA (next_oid s) args a),
                    mkState (with_books (bookDocs (db s)
                                         ++ [bookA (next_oid s) args a])
                                        (db s))
                            (S (next_oid s))
                            (pubsub s ++ [addedA (next_oid s) args a])
                            (pending s)))))
  \/ (Author_findOne (Some (author args)) (db s) = None
      /\ ((exists msg,
              validateAuthor models (authorDocs (db s))
                             (authorA (next_oid s) args) = Some msg
              /\ VariantA.addBook models args ctx s
                 = (Throw (UserInputError msg (Some (ArgsAddBook args))),
                    mkState (db s) (S (next_oid s)) (pubsub s) (pending s)))
          \/ (validateAuthor models (authorDocs (db s))
                             (authorA (next_oid s) args) = None
              /\ ((exists msg,
                      validateBook models (bookDocs (db s))
                        (bookA (S (next_oid s)) args
                               (authorA (next_oid s) args)) = Some msg
                      /\ VariantA.addBook models args ctx s
                         = (Throw (UserInputError msg
                                     (Some (ArgsAddBook args))),
                            mkState (with_authors
                                       (authorDocs (db s)
                                        ++ [authorA (next_oid s) args])
                                       (db s))
                                    (S (S (next_oid s))) (pubsub s)
                                    (pending s)))
                  \/ (validateBook models (bookDocs (db s))
                        (bookA (S (next_oid s)) args
                               (authorA (next_oid s) args)) = None
                      /\ VariantA.addBook models args ctx s
                         = (Ok (addedA (S (next_oid s)) args
                                           (authorA (next_oid s) args)),
                            mkState
                              (mkDb (authorDocs (db s)
                                     ++ [authorA (next_oid s) args])
                                    (bookDocs (db s)
                                     ++ [bookA (S (next_oid s)) args
                                               (authorA (next_oid s) args)])
                                    (userDocs (db s)))
                              (S (S (next_oid s)))
                              (pubsub s
                               ++ [addedA (S (next_oid s)) args
                                     (authorA (next_oid s) args)])
                              (pending s))))))).
Proof.
  intros Hctx.
  destruct (currentUser ctx) as [u|] eqn:Hu; [clear Hctx | now elim Hctx].
  step_resolver. rewrite Hu.
  destruct (Author_findOne (Some (author args)) (db s)) as [a|] eqn:Hfind.
  - left. exists a. split; [reflexivity|].
    cbn [db next_oid pubsub pending authorDocs bookDocs userDocs fst snd].
    fold (bookA (next_oid s) args a).
    destruct (validateBook models _ _) as [msg|];
      cbn [db next_oid pubsub pending authorDocs bookDocs userDocs fst snd
           message].
    + left. exists msg. split; reflexivity.
    + right. split; reflexivity.
  - right. split; [reflexivity|].
    cbn [db next_oid pubsub pending authorDocs bookDocs userDocs fst snd].
    fold (authorA (next_oid s) args).
    destruct (validateAuthor models _ _) as [msg|];
      cbn [db next_oid pubsub pending authorDocs bookDocs userDocs fst snd
           message].
    + left. exists msg. split; reflexivity.
    + right. split; [reflexivity|].
      fold (bookA (S (next_oid s)) args (authorA (next_oid s) args)).
      destruct (validateBook models _ _) as [msg|];
        cbn [db next_oid pubsub pending authorDocs bookDocs userDocs fst snd
             message].
      * left. exists msg. split; reflexivity.
      * right. split; reflexivity.
Qed.

Lemma addBook_unauthenticated_state (models : Models) (args : AddBookArgs)
  (ctx : Context) (s : State) :
  currentUser ctx = None ->
  snd (VariantA.addBook models args ctx s) = s
  /\ snd (VariantB.addBook models args ctx s)
     = mkState (db s) (S (next_oid s)) (pubsub s) (pending s).
Proof.
  intros H. unfold VariantA.addBook, VariantB.addBook, bind, fresh_oid,
    authenticationError, throw.
  rewrite H. split; reflexivity.
Qed.

Lemma editAuthor_A_cases (args : EditAuthorArgs) (ctx : Context) (s : State) :
  currentUser ctx <> None ->
  (Author_find_name_in (name args) (db s) = []
   /\ VariantA.editAuthor args ctx s
      = (Throw (UserInputError "Cannot read property 'name' of undefined"
                  (Some (ArgsEditAuthor args))), s))
  \/ (exists a0 l,
         Author_find_name_in (name args) (db s) = a0 :: l
         /\ VariantA.editAuthor args ctx s
            = (Ok None,
               mkState
                 (with_authors
                    (update_by_id (a_id a0)
                       (fun a => mkAuthor (a_id a) (a_name a0)
                                          (Some (setBornTo args))
                                          (a_bookCount a))
                       (authorDocs (db s)))
                    (db s))
                 (next_oid s) (pubsub s) (pending s))).
Proof.
  intros Hctx.
  destruct (currentUser ctx) as [u|] eqn:Hu; [clear Hctx | now elim Hctx].
  step_resolver. rewrite Hu. unfold array_is_falsy.
  destruct (Author_find_name_in (name args) (db s)) as [|a0 l].
  - left. split; [reflexivity|]. destruct s. reflexivity.
  - right. exists a0, l. split; reflexivity.
Qed.

(** X1. A call of editAuthor whose context carries no current user fails
    with AuthenticationError in both files and leaves the whole state as it
    was. *)
Lemma editAuthor_unauthenticated_both (models : Models)
  (args : EditAuthorArgs) (ctx : Context) (s : State) :
  currentUser ctx = None ->
  VariantA.editAuthor args ctx s
  = (Throw (AuthenticationError "not authenticated"), s)
  /\ VariantB.editAuthor models args ctx s
     = (Throw (AuthenticationError "not authenticated"), s).
Proof.
  intros H. unfold VariantA.editAuthor, VariantB.editAuthor. rewrite H.
  split; reflexivity.
Qed.

Lemma createUser_cases (models : Models) (args : CreateUserArgs) (s : State) :
  let user := mkUser (next_oid s) (username args) (favoriteGenre args) in
  (validateUser models (userDocs (db s)) user = None
   /\ createUser models args s
      = (Ok user,
         mkState (mkDb (authorDocs (db s)) (bookDocs (db s))
                       (userDocs (db s) ++ [user]))
                 (S (next_oid s)) (pubsub s) (pending s)))
  \/ (exists msg,
         validateUser models (userDocs (db s)) user = Some msg
         /\ createUser models args s
            = (Throw (UserInputError msg (Some (ArgsCreateUser args))),
               mkState (db s) (S (next_oid s)) (pubsub s) (pending s))).
Proof.
  cbv zeta. step_resolver.
  destruct (validateUser models _ _) as [msg|].
  - right. exists msg. split; reflexivity.
  - left. split; reflexivity.
Qed.

(** ** Distinct ids and distinct names *)

Lemma NoDup_snoc {A} (l : list A) (x : A) :
  NoDup l -> ~ In x l -> NoDup (l ++ [x]).
Proof.
  intros Hl Hx. apply NoDup_app; [exact Hl | repeat constructor; intros [] |].
  intros a Ha [<-|[]]. now apply Hx.
Qed.

Lemma update_by_id_at (f : Author -> Author) (l1 l2 : list Author)
  (a0 : Author) :
  NoDup (map a_id (l1 ++ a0 :: l2)) ->
  update_by_id (a_id a0) f (l1 ++ a0 :: l2) = (l1 ++ f a0 :: l2)%list.
Proof.
  induction l1 as [|x l1 IH]; cbn [app map update_by_id]; intros Hnd.
  - now rewrite Nat.eqb_refl.
  - apply NoDup_cons_iff in Hnd. destruct Hnd as [Hx Hnd].
    destruct (Nat.eqb (a_id x) (a_id a0)) eqn:E.
    + apply Nat.eqb_eq in E. elim Hx. rewrite E, map_app.
      apply in_or_app. right. now left.
    + now rewrite IH.
Qed.

Lemma findOne_none_names (n : string) (d : Db) :
  Author_findOne (Some n) d = None -> ~ In n (map a_name (authorDocs d)).
Proof.
  unfold Author_findOne. intros Hnone Hin.
  apply in_map_iff in Hin. destruct Hin as (a & Ha & Hin).
  apply (find_none _ _ Hnone) in Hin. apply String.eqb_neq in Hin.
  contradiction.
Qed.

Lemma findOne_some (n : string) (d : Db) (a : Author) :
  Author_findOne (Some n) d = Some a -> In a (authorDocs d) /\ a_name a = n.
Proof.
  unfold Author_findOne. intros H. apply find_some in H.
  destruct H as [Hin Hn]. apply String.eqb_eq in Hn. now split.
Qed.

Lemma ids_unique_grow (s s' : State) (la : list Author) (lb : list Book)
  (lu : list User) :
  ids_unique s ->
  authorDocs (db s') = (authorDocs (db s) ++ la)%list ->
  bookDocs (db s') = (bookDocs (db s) ++ lb)%list ->
  userDocs (db s') = (userDocs (db s) ++ lu)%list ->
  NoDup (map a_id la) -> NoDup (map b_id lb) -> NoDup (map u_id lu) ->
  (forall i, In i (map a_id la ++ map b_id lb ++ map u_id lu) ->
             next_oid s <= i < next_oid s') ->
  next_oid s <= next_oid s' ->
  ids_unique s'.
Proof.
  intros (Ha & Hb & Hu & Hlt) Ea Eb Eu Na Nb Nu Hnew Hle.
  unfold ids_unique. rewrite Ea, Eb, Eu, !map_app.
  assert (Hold : forall i,
             In i (map a_id (authorDocs (db s))) \/
             In i (map b_id (bookDocs (db s))) \/
             In i (map u_id (userDocs (db s))) -> i < next_oid s).
  { intros i Hi. apply Hlt. rewrite !in_app_iff. exact Hi. }
  assert (Hfresh : forall i,
             In i (map a_id la) \/ In i (map b_id lb) \/ In i (map u_id lu) ->
             next_oid s <= i < next_oid s').
  { intros i Hi. apply Hnew. rewrite !in_app_iff. exact Hi. }
  repeat split.
  - apply NoDup_app; try assumption. intros i Hi Hi'.
    specialize (Hold i (or_introl Hi)).
    specialize (Hfresh i (or_introl Hi')). lia.
  - apply NoDup_app; try assumption. intros i Hi Hi'.
    specialize (Hold i (or_intror (or_introl Hi))).
    specialize (Hfresh i (or_intror (or_introl Hi'))). lia.
  - apply NoDup_app; try assumption. intros i Hi Hi'.
    specialize (Hold i (or_intror (or_intror Hi))).
    specialize (Hfresh i (or_intror (or_intror Hi'))). lia.
  - intros i Hi. rewrite !in_app_iff in Hi.
    destruct Hi as [[Hi|Hi]|[[Hi|Hi]|[Hi|Hi]]];
      solve [ specialize (Hold i); intuition lia
            | specialize (Hfresh i); intuition lia ].
Qed.

Lemma ids_unique_same_ids (s s' : State) :
  ids_unique s ->
  map a_id (authorDocs (db s')) = map a_id (authorDocs (db s)) ->
  bookDocs (db s') = bookDocs (db s) ->
  userDocs (db s') = userDocs (db s) ->
  next_oid s <= next_oid s' ->
  ids_unique s'.
Proof.
  intros (Ha & Hb & Hu & Hlt) Ea Eb Eu Hle.
  unfold ids_unique. rewrite Ea, Eb, Eu. repeat split; try assumption.
  intros i Hi. specialize (Hlt i Hi). lia.
Qed.

Ltac grow_by la lb lu :=
  match goal with
  | H : ids_unique ?s |- ids_unique _ =>
      apply (ids_unique_grow s _ la lb lu H);
      cbn [db next_oid pubsub pending authorDocs bookDocs userDocs with_books
           with_authors map app a_id b_id u_id authorA bookA bookB authorB];
      rewrite ?app_nil_r;
      try reflexivity;
      try solve [ constructor
                | repeat constructor; intros []
                | lia
                | intros ? Hi; cbn in Hi; intuition lia ]
  end.

Lemma ids_unique_createUser (models : Models) (args : CreateUserArgs)
  (s : State) :
  ids_unique s -> ids_unique (snd (createUser models args s)).
Proof.
  intros H.
  destruct (createUser_cases models args s) as [[_ E]|(msg & _ & E)];
    rewrite E; cbn [snd].
  - grow_by (@nil Author) (@nil Book)
            [mkUser (next_oid s) (username args) (favoriteGenre args)].
  - grow_by (@nil Author) (@nil Book) (@nil User).
Qed.

Lemma ids_unique_addBook_A (models : Models) (args : AddBookArgs)
  (ctx : Context) (s : State) :
  ids_unique s -> ids_unique (snd (VariantA.addBook models args ctx s)).
Proof.
  intros H. destruct (currentUser ctx) as [u|] eqn:Hu.
  - assert (Hctx : currentUser ctx <> None) by (rewrite Hu; discriminate).
    destruct (addBook_A_cases models args ctx s Hctx)
      as [(a & _ & [(msg & _ & E)|(_ & E)])
         |(_ & [(msg & _ & E)|(_ & [(msg & _ & E)|(_ & E)])])];
      rewrite E; cbn [snd].
    + grow_by (@nil Author) (@nil Book) (@nil User).
    + grow_by (@nil Author) [bookA (next_oid s) args a] (@nil User).
    + grow_by (@nil Author) (@nil Book) (@nil User).
    + grow_by [authorA (next_oid s) args] (@nil Book) (@nil User).
    + grow_by [authorA (next_oid s) args]
              [bookA (S (next_oid s)) args (authorA (next_oid s) args)]
              (@nil User).
  - now rewrite (proj1 (addBook_unauthenticated_state models args ctx s Hu)).
Qed.

Lemma find_name_in_head (n : string) (d : Db) (a0 : Author)
  (l : list Author) :
  Author_find_name_in n d = a0 :: l ->
  exists l1 l2, authorDocs d = (l1 ++ a0 :: l2)%list
                /\ a_name a0 = n
                /\ (forall x, In x l1 -> a_name x <> n).
Proof.
  unfold Author_find_name_in. induction (authorDocs d) as [|x r IH]; simpl;
    [discriminate|].
  destruct (String.eqb (a_name x) n) eqn:E.
  - intros [= -> _]. apply String.eqb_eq in E.
    exists [], r. repeat split; [exact E | intros ? []].
  - intros Hr. destruct (IH Hr) as (l1 & l2 & -> & Hn & Hl1).
    exists (x :: l1), l2. repeat split; [exact Hn|].
    intros y [<-|Hy]; [now apply String.eqb_neq | now apply Hl1].
Qed.

Lemma editAuthor_A_state (args : EditAuthorArgs) (ctx : Context) (s : State) :
  NoDup (map a_id (authorDocs (db s))) ->
  snd (VariantA.editAuthor args ctx s) = s
  \/ exists l1 a0 l2,
      authorDocs (db s) = (l1 ++ a0 :: l2)%list
      /\ a_name a0 = name args
      /\ (forall x, In x l1 -> a_name x <> name args)
      /\ currentUser ctx <> None
      /\ VariantA.editAuthor args ctx s
         = (Ok None,
            mkState (with_authors
                       (l1 ++ mkAuthor (a_id a0) (a_name a0)
                                       (Some (setBornTo args))
                                       (a_bookCount a0) :: l2)
                       (db s))
                    (next_oid s) (pubsub s) (pending s)).
Proof.
  intros Hnd. destruct (currentUser ctx) as [u|] eqn:Hu.
  - assert (Hctx : currentUser ctx <> None) by (rewrite Hu; discriminate).
    destruct (editAuthor_A_cases args ctx s Hctx)
      as [[_ E]|(a0 & l & Hfound & E)]; [left; now rewrite E|].
    right. destruct (find_name_in_head _ _ _ _ Hfound)
      as (l1 & l2 & Hsplit & Hn & Hl1).
    exists l1, a0, l2. repeat split; try assumption; try discriminate.
    rewrite E, Hsplit. rewrite Hsplit in Hnd.
    now rewrite (update_by_id_at _ l1 l2 a0 Hnd).
  - left. unfold VariantA.editAuthor. now rewrite Hu.
Qed.

Lemma ids_unique_editAuthor_A (args : EditAuthorArgs) (ctx : Context)
  (s : State) :
  ids_unique s -> ids_unique (snd (VariantA.editAuthor args ctx s)).
Proof.
  intros H.
  destruct (editAuthor_A_state args ctx s (proj1 H))
    as [E|(l1 & a0 & l2 & Hsplit & _ & _ & _ & E)]; rewrite E; [exact H|].
  cbn [snd]. apply (ids_unique_same_ids s _ H);
    cbn [db next_oid authorDocs bookDocs userDocs with_authors];
    try reflexivity; try lia.
  now rewrite Hsplit, !map_app.
Qed.

Lemma names_unique_editAuthor_A (args : EditAuthorArgs) (ctx : Context)
  (s : State) :
  ids_unique s -> names_unique (db s) ->
  names_unique (db (snd (VariantA.editAuthor args ctx s))).
Proof.
  intros H Hn.
  destruct (editAuthor_A_state args ctx s (proj1 H))
    as [E|(l1 & a0 & l2 & Hsplit & _ & _ & _ & E)]; rewrite E; [exact Hn|].
  unfold names_unique in *. cbn [snd db authorDocs with_authors].
  rewrite Hsplit in Hn. now rewrite map_app in *.
Qed.

Lemma names_unique_addBook_A (models : Models) (args : AddBookArgs)
  (ctx : Context) (s : State) :
  names_unique (db s) ->
  names_unique (db (snd (VariantA.addBook models args ctx s))).
Proof.
  intros H. destruct (currentUser ctx) as [u|] eqn:Hu.
  - assert (Hctx : currentUser ctx <> None) by (rewrite Hu; discriminate).
    destruct (addBook_A_cases models args ctx s Hctx)
      as [(a & _ & [(msg & _ & E)|(_ & E)])
         |(Hnone & [(msg & _ & E)|(_ & [(msg & _ & E)|(_ & E)])])];
      rewrite E; unfold names_unique in *;
      cbn [snd db authorDocs with_books with_authors]; try exact H;
      rewrite map_app; apply NoDup_snoc; try exact H;
      apply (findOne_none_names _ _ Hnone).
  - now rewrite (proj1 (addBook_unauthenticated_state models args ctx s Hu)).
Qed.

Lemma names_unique_createUser (models : Models) (args : CreateUserArgs)
  (s : State) :
  names_unique (db s) -> names_unique (db (snd (createUser models args s))).
Proof.
  intros H.
  destruct (createUser_cases models args s) as [[_ E]|(msg & _ & E)];
    rewrite E; exact H.
Qed.

Lemma store_ok_run_A (models : Models) (ops : list Op) (s : State) :
  ids_unique s -> names_unique (db s) ->
  ids_unique (VariantA.run models ops s)
  /\ names_unique (db (VariantA.run models ops s)).
Proof.
  revert s. induction ops as [|o ops IH]; intros s Hi Hn; [now split|].
  cbn [VariantA.run fold_left]. apply IH;
    destruct o as [ctx args|ctx args|args|k]; cbn [VariantA.exec].
  - now apply ids_unique_addBook_A.
  - now apply ids_unique_editAuthor_A.
  - now apply ids_unique_createUser.
  - exact Hi.
  - now apply names_unique_addBook_A.
  - now apply names_unique_editAuthor_A.
  - now apply names_unique_createUser.
  - exact Hn.
Qed.

Lemma ids_unique_init : ids_unique init.
Proof. repeat split; try constructor. intros i []. Qed.

Lemma names_unique_init : names_unique (db init).
Proof. constructor. Qed.

Lemma findOne_split (n : string) (d : Db) (a : Author) :
  Author_findOne (Some n) d = Some a ->
  exists l1 l2, authorDocs d = (l1 ++ a :: l2)%list
                /\ a_name a = n
                /\ (forall x, In x l1 -> a_name x <> n).
Proof.
  unfold Author_findOne. induction (authorDocs d) as [|x r IH]; simpl;
    [discriminate|].
  destruct (String.eqb (a_name x) n) eqn:E.
  - intros [= ->]. apply String.eqb_eq in E.
    exists [], r. repeat split; [exact E | intros ? []].
  - intros Hr. destruct (IH Hr) as (l1 & l2 & -> & Hn & Hl1).
    exists (x :: l1), l2. repeat split; [exact Hn|].
    intros y [<-|Hy]; [now apply String.eqb_neq | now apply Hl1].
Qed.

(** ** The second file: ids, with the saves that are pending *)

Lemma remove_nth_split {A} (k : nat) (l : list A) (w : A) (rest : list A) :
  remove_nth k l = Some (w, rest) ->
  exists l1 l2, l = (l1 ++ w :: l2)%list /\ rest = (l1 ++ l2)%list.
Proof.
  revert k w rest. induction l as [|x r IH]; intros k w rest.
  - destruct k; discriminate.
  - destruct k as [|k]; cbn [remove_nth].
    + intros [= -> ->]. now exists [], rest.
    + destruct (remove_nth k r) as [[y r']|] eqn:E; [|discriminate].
      intros [= -> <-]. destruct (IH _ _ _ E) as (l1 & l2 & -> & ->).
      now exists (x :: l1), l2.
Qed.

Lemma flat_map_remove {A B} (f : A -> list B) (X : list B) (l1 l2 : list A)
  (w : A) :
  Permutation (X ++ flat_map f (l1 ++ w :: l2))
              (f w ++ X ++ flat_map f (l1 ++ l2)).
Proof.
  rewrite !flat_map_app. cbn [flat_map].
  rewrite (app_assoc X (flat_map f l1) (f w ++ flat_map f l2)).
  rewrite (app_assoc (X ++ flat_map f l1) (f w) (flat_map f l2)).
  rewrite (app_assoc X (flat_map f l1) (flat_map f l2)).
  rewrite (app_assoc (f w) (X ++ flat_map f l1) (flat_map f l2)).
  apply Permutation_app_tail. apply Permutation_app_comm.
Qed.

Lemma pending_author_ids_remove (X : list ObjectId) (l1 l2 : list Write)
  (w : Write) :
  Permutation (X ++ pending_author_ids (l1 ++ w :: l2))
              (pending_author_ids [w] ++ X ++ pending_author_ids (l1 ++ l2)).
Proof.
  unfold pending_author_ids. cbn [flat_map]. rewrite app_nil_r.
  apply flat_map_remove.
Qed.

Lemma pending_book_ids_remove (X : list ObjectId) (l1 l2 : list Write)
  (w : Write) :
  Permutation (X ++ pending_book_ids (l1 ++ w :: l2))
              (pending_book_ids [w] ++ X ++ pending_book_ids (l1 ++ l2)).
Proof.
  unfold pending_book_ids. cbn [flat_map]. rewrite app_nil_r.
  apply flat_map_remove.
Qed.

Lemma perm_snoc {A} (x : A) (X P : list A) :
  Permutation ([x] ++ X ++ P) ((X ++ [x]) ++ P).
Proof. rewrite <- app_assoc. exact (Permutation_middle X P x). Qed.

(** One step of a server, seen from the ids: the ids [nA], [nB], [nU] are
    generated, and the ids [dA], [dB] of documents whose save was refused
    are dropped. *)
Lemma fresh_step (A B U A' B' U' nA nB nU dA dB : list nat) (n n' : nat) :
  NoDup A /\ NoDup B /\ NoDup U
  /\ (forall i, In i (A ++ B ++ U) -> i < n) ->
  n <= n' ->
  NoDup nA -> NoDup nB -> NoDup nU ->
  (forall i, In i (nA ++ nB ++ nU) -> n <= i < n') ->
  Permutation (A ++ nA) (dA ++ A') ->
  Permutation (B ++ nB) (dB ++ B') ->
  U' = (U ++ nU)%list ->
  NoDup A' /\ NoDup B' /\ NoDup U'
  /\ (forall i, In i (A' ++ B' ++ U') -> i < n').
Proof.
  intros (HA & HB & HU & Hlt) Hle HnA HnB HnU Hnew PA PB ->.
  assert (Hold : forall i, In i A \/ In i B \/ In i U -> i < n).
  { intros i Hi. apply Hlt. rewrite !in_app_iff. exact Hi. }
  assert (Hfresh : forall i,
             In i nA \/ In i nB \/ In i nU -> n <= i < n').
  { intros i Hi. apply Hnew. rewrite !in_app_iff. exact Hi. }
  assert (NA : NoDup (A ++ nA)).
  { apply NoDup_app; try assumption. intros i Hi Hi'.
    specialize (Hold i (or_introl Hi)).
    specialize (Hfresh i (or_introl Hi')). lia. }
  assert (NB : NoDup (B ++ nB)).
  { apply NoDup_app; try assumption. intros i Hi Hi'.
    specialize (Hold i (or_intror (or_introl Hi))).
    specialize (Hfresh i (or_intror (or_introl Hi'))). lia. }
  assert (IA : forall i, In i A' -> In i A \/ In i nA).
  { intros i Hi. apply in_app_or.
    apply (Permutation_in i (Permutation_sym PA)). apply in_or_app.
    now right. }
  assert (IB : forall i, In i B' -> In i B \/ In i nB).
  { intros i Hi. apply in_app_or.
    apply (Permutation_in i (Permutation_sym PB)). apply in_or_app.
    now right. }
  split; [|split; [|split]].
  - apply (NoDup_app_remove_l dA). apply (Permutation_NoDup PA NA).
  - apply (NoDup_app_remove_l dB). apply (Permutation_NoDup PB NB).
  - apply NoDup_app; try assumption. intros i Hi Hi'.
    specialize (Hold i (or_intror (or_intror Hi))).
    specialize (Hfresh i (or_intror (or_intror Hi'))). lia.
  - intros i Hi. rewrite !in_app_iff in Hi.
    destruct Hi as [Hi|[Hi|[Hi|Hi]]].
    + destruct (IA i Hi) as [H|H];
        [specialize (Hold i (or_introl H))
        |specialize (Hfresh i (or_introl H))]; lia.
    + destruct (IB i Hi) as [H|H];
        [specialize (Hold i (or_intror (or_introl H)))
        |specialize (Hfresh i (or_intror (or_introl H)))]; lia.
    + specialize (Hold i (or_intror (or_intror Hi))). lia.
    + specialize (Hfresh i (or_intror (or_intror Hi))). lia.
Qed.

Lemma land_write_state (models : Models) (w : Write) (s : State)
  (q : list Write) :
  land_write models w (mkState (db s) (next_oid s) (pubsub s) q)
  = mkState (db (land_write models w s)) (next_oid s) (pubsub s) q.
Proof.
  destruct w as [a|a|b];
    unfold land_write, Author_save, Author_resave, Book_save, set_db;
    cbn [db next_oid pubsub pending];
    [ destruct (validateAuthor models _ _)
    | destruct (validateAuthor models _ _)
    | destruct (validateBook models _ _) ]; reflexivity.
Qed.

Ltac no_new_ids :=
  solve [ lia | constructor | intros ? []
        | rewrite ?app_nil_r; reflexivity ].

(** A pending save lands, wherever it stands among the pending ones. *)
Lemma ids_fresh_land_write (models : Models) (w : Write) (s : State)
  (l1 l2 : list Write) :
  ids_fresh (mkState (db s) (next_oid s) (pubsub s) (l1 ++ w :: l2)) ->
  ids_fresh (mkState (db (land_write models w s)) (next_oid s) (pubsub s)
                     (l1 ++ l2)).
Proof.
  unfold ids_fresh. cbn [db next_oid pubsub pending]. intros H.
  destruct w as [a|a|b];
    unfold land_write, Author_save, Author_resave, Book_save, set_db.
  - destruct (validateAuthor models _ _);
      cbn [snd db next_oid pubsub pending authorDocs bookDocs userDocs].
    + apply (fresh_step _ _ _ _ _ _ [] [] [] [a_id a] [] _ _ H);
        try no_new_ids; rewrite app_nil_r.
      * apply pending_author_ids_remove.
      * apply pending_book_ids_remove.
    + apply (fresh_step _ _ _ _ _ _ [] [] [] [] [] _ _ H);
        try no_new_ids; rewrite app_nil_r.
      * rewrite map_app.
        etransitivity; [apply pending_author_ids_remove | apply perm_snoc].
      * apply pending_book_ids_remove.
  - destruct (validateAuthor models _ _);
      cbn [snd db next_oid pubsub pending authorDocs bookDocs userDocs];
      rewrite ?update_by_id_ids by (intros; reflexivity);
      apply (fresh_step _ _ _ _ _ _ [] [] [] [] [] _ _ H);
      try no_new_ids; rewrite app_nil_r;
      solve [ apply pending_author_ids_remove
            | apply pending_book_ids_remove ].
  - destruct (validateBook models _ _);
      cbn [snd db next_oid pubsub pending authorDocs bookDocs userDocs].
    + apply (fresh_step _ _ _ _ _ _ [] [] [] [] [b_id b] _ _ H);
        try no_new_ids; rewrite app_nil_r.
      * apply pending_author_ids_remove.
      * apply pending_book_ids_remove.
    + apply (fresh_step _ _ _ _ _ _ [] [] [] [] [] _ _ H);
        try no_new_ids; rewrite app_nil_r.
      * apply pending_author_ids_remove.
      * rewrite map_app.
        etransitivity; [apply pending_book_ids_remove | apply perm_snoc].
Qed.

Lemma ids_fresh_land (models : Models) (k : nat) (s : State) :
  ids_fresh s -> ids_fresh (land models k s).
Proof.
  intros H. unfold land.
  destruct (remove_nth k (pending s)) as [[w rest]|] eqn:E; [|exact H].
  destruct (remove_nth_split _ _ _ _ E) as (l1 & l2 & Hp & ->).
  rewrite land_write_state. apply ids_fresh_land_write.
  unfold ids_fresh in *. cbn [db next_oid pubsub pending]. now rewrite <- Hp.
Qed.

Lemma ids_fresh_land_all (models : Models) (ws : list Write) (s : State) :
  pending s = [] ->
  ids_fresh (mkState (db s) (next_oid s) (pubsub s) ws) ->
  ids_fresh (land_all models ws s).
Proof.
  revert s. induction ws as [|w ws IH]; intros s Hp H; cbn [land_all].
  - unfold ids_fresh in *. cbn [db next_oid pubsub pending] in H.
    now rewrite Hp.
  - destruct (land_write_keeps models w s) as (P & N & B & _).
    apply IH; [now rewrite P|]. rewrite N, B.
    apply (ids_fresh_land_write models w s [] ws). exact H.
Qed.

Lemma ids_fresh_settle (models : Models) (s : State) :
  ids_fresh s -> ids_fresh (settle models s).
Proof.
  intros H. unfold settle. apply ids_fresh_land_all; [reflexivity|].
  exact H.
Qed.

Lemma ids_fresh_addBook_B (models : Models) (args : AddBookArgs)
  (ctx : Context) (s : State) :
  ids_fresh s -> ids_fresh (snd (VariantB.addBook models args ctx s)).
Proof.
  intros H. destruct (currentUser ctx) as [u|] eqn:Hu.
  2:{ rewrite (proj2 (addBook_unauthenticated_state models args ctx s Hu)).
      unfold ids_fresh in *. cbn [db next_oid pubsub pending].
      apply (fresh_step _ _ _ _ _ _ [] [] [] [] [] _ _ H);
        try no_new_ids. }
  assert (Hctx : currentUser ctx <> None) by (rewrite Hu; discriminate).
  rewrite (addBook_B_at_return models args ctx s Hctx). cbn [snd].
  unfold ids_fresh in *. cbn [db next_oid pubsub pending].
  unfold fired_by_addBook_B, next_after_addBook_B, pending_author_ids,
    pending_book_ids in *.
  rewrite !flat_map_app.
  destruct (Author_findOne (Some (author args)) (db s)) as [a|];
    [destruct (a_bookCount a)|];
    cbn [flat_map app bookB authorB a_id b_id]; rewrite ?app_nil_r.
  - apply (fresh_step _ _ _ _ _ _ [] [next_oid s] [] [] [] _ _ H);
      try no_new_ids.
    + repeat constructor. intros [].
    + intros i Hi. cbn in Hi. intuition lia.
    + cbn [app]. rewrite <- ?app_assoc. reflexivity.
  - apply (fresh_step _ _ _ _ _ _ [] [next_oid s] [] [] [] _ _ H);
      try no_new_ids.
    + repeat constructor. intros [].
    + intros i Hi. cbn in Hi. intuition lia.
    + cbn [app]. rewrite <- ?app_assoc. reflexivity.
  - apply (fresh_step _ _ _ _ _ _ [S (next_oid s)] [next_oid s] [] [] []
             _ _ H);
      try no_new_ids.
    + repeat constructor. intros [].
    + repeat constructor. intros [].
    + intros i Hi. cbn in Hi. intuition lia.
    + cbn [app]. rewrite <- ?app_assoc. reflexivity.
    + cbn [app]. rewrite <- ?app_assoc. reflexivity.
Qed.

Lemma ids_fresh_createUser (models : Models) (args : CreateUserArgs)
  (s : State) :
  ids_fresh s -> ids_fresh (snd (createUser models args s)).
Proof.
  intros H.
  destruct (createUser_cases models args s) as [[_ E]|(msg & _ & E)];
    rewrite E; unfold ids_fresh in *;
    cbn [snd db next_oid pubsub pending authorDocs bookDocs userDocs].
  - apply (fresh_step _ _ _ _ _ _ [] [] [next_oid s] [] [] _ _ H);
      try no_new_ids.
    + repeat constructor. intros [].
    + intros i Hi. cbn in Hi. intuition lia.
    + now rewrite map_app.
  - apply (fresh_step _ _ _ _ _ _ [] [] [] [] [] _ _ H); try no_new_ids.
Qed.

Lemma ids_fresh_exec_B (models : Models) (o : Op) (s : State) :
  ids_fresh s -> ids_fresh (VariantB.exec models o s).
Proof.
  intros H. destruct o as [ctx args|ctx args|args|k]; cbn [VariantB.exec].
  - now apply ids_fresh_addBook_B.
  - now rewrite (proj1 (editAuthor_B_finds_nothing models args ctx s)).
  - now apply ids_fresh_createUser.
  - now apply ids_fresh_land.
Qed.

Lemma ids_fresh_run_B (models : Models) (ops : list Op) (s : State) :
  ids_fresh s -> ids_fresh (VariantB.run models ops s).
Proof.
  revert s. induction ops as [|o ops IH]; intros s H; [exact H|].
  cbn [VariantB.run fold_left]. apply IH. now apply ids_fresh_exec_B.
Qed.

Lemma ids_fresh_unique (s : State) : ids_fresh s -> ids_unique s.
Proof.
  intros (HA & HB & HU & Hlt). split; [|split; [|split]].
  - exact (NoDup_app_remove_r _ _ HA).
  - exact (NoDup_app_remove_r _ _ HB).
  - exact HU.
  - intros i Hi. apply Hlt. rewrite !in_app_iff in *. tauto.
Qed.

Lemma ids_fresh_init : ids_fresh init.
Proof.
  split; [|split; [|split]]; try constructor. intros i [].
Qed.

(** ** The second file, when every save lands before the next call *)

Lemma land_nothing (models : Models) (k : nat) (s : State) :
  pending s = [] -> land models k s = s.
Proof. intros H. unfold land. rewrite H. now destruct k. Qed.

(** Apart from an authenticated addBook, no operation starts a save or
    touches the Authors and the Books. *)
Lemma settled_step_B (models : Models) (o : Op) (s : State) :
  pending s = [] ->
  (exists ctx args, o = OpAddBook ctx args /\ currentUser ctx <> None)
  \/ (settle models (VariantB.exec models o s) = VariantB.exec models o s
      /\ pending (VariantB.exec models o s) = []
      /\ authorDocs (db (VariantB.exec models o s)) = authorDocs (db s)
      /\ bookDocs (db (VariantB.exec models o s)) = bookDocs (db s)).
Proof.
  intros Hp. destruct o as [ctx args|ctx args|args|k]; cbn [VariantB.exec].
  - destruct (currentUser ctx) as [u|] eqn:Hu.
    + left. exists ctx, args. split; [reflexivity|]. rewrite Hu. discriminate.
    + right.
      rewrite (proj2 (addBook_unauthenticated_state models args ctx s Hu)).
      rewrite settle_settled by exact Hp. now repeat split.
  - right. rewrite (proj1 (editAuthor_B_finds_nothing models args ctx s)).
    rewrite settle_settled by exact Hp. now repeat split.
  - right.
    destruct (createUser_cases models args s) as [[_ E]|(msg & _ & E)];
      rewrite E; cbn [snd]; rewrite settle_settled by exact Hp;
      now repeat split.
  - right. rewrite (land_nothing models k s Hp).
    rewrite settle_settled by exact Hp. now repeat split.
Qed.

(** The Authors after an authenticated addBook of the second file whose
    saves have landed, when the ids of the Authors are distinct: unchanged,
    or one more, or the first Author of that name with its count raised by
    one. *)
Lemma addBook_B_authors (models : Models) (args : AddBookArgs) (ctx : Context)
  (s : State) :
  currentUser ctx <> None ->
  pending s = [] ->
  NoDup (map a_id (authorDocs (db s))) ->
  let s' := settle models (snd (VariantB.addBook models args ctx s)) in
  authorDocs (db s') = authorDocs (db s)
  \/ (Author_findOne (Some (author args)) (db s) = None
      /\ authorDocs (db s')
         = (authorDocs (db s) ++ [authorB (S (next_oid s)) args])%list)
  \/ (exists l1 a l2 k,
         authorDocs (db s) = (l1 ++ a :: l2)%list
         /\ a_name a = author args
         /\ (forall x, In x l1 -> a_name x <> author args)
         /\ a_bookCount a = Some k
         /\ authorDocs (db s')
            = (l1 ++ mkAuthor (a_id a) (a_name a) (a_born a)
                              (Some (k + 1)%Z) :: l2)%list).
Proof.
  intros Hctx Hp Hnd. cbv zeta.
  rewrite (addBook_B_settled models args ctx s Hctx Hp).
  cbn [db next_oid pubsub pending authorDocs bookDocs userDocs].
  destruct (Author_findOne (Some (author args)) (db s)) as [a|] eqn:Hfind.
  - destruct (a_bookCount a) as [k|] eqn:Hk; [|now left].
    cbv zeta. destruct (validateAuthor models _ _); [now left|].
    right. right.
    destruct (findOne_split _ _ _ Hfind) as (l1 & l2 & Hsplit & Hn & Hl1).
    exists l1, a, l2, k. repeat split; try assumption.
    rewrite Hsplit in *. now rewrite (update_by_id_at _ l1 l2 a Hnd).
  - destruct (validateAuthor models _ _); [now left|].
    right. left. repeat split.
Qed.

Lemma names_unique_addBook_B (models : Models) (args : AddBookArgs)
  (ctx : Context) (s : State) :
  currentUser ctx <> None ->
  pending s = [] ->
  ids_unique s -> names_unique (db s) ->
  names_unique
    (db (settle models (snd (VariantB.addBook models args ctx s)))).
Proof.
  intros Hctx Hp H Hn.
  pose proof (addBook_B_authors models args ctx s Hctx Hp (proj1 H)) as Ha.
  cbv zeta in Ha.
  unfold names_unique in *.
  destruct Ha as [-> | [(Hnone & ->)
                       | (l1 & a & l2 & k & E & _ & _ & _ & ->)]].
  - exact Hn.
  - rewrite map_app. apply NoDup_snoc; [exact Hn|].
    apply (findOne_none_names _ _ Hnone).
  - rewrite E in Hn. now rewrite map_app in *.
Qed.

(** ** The stored counter of the second file *)

Lemma booksNamed_add (m : string) (au : list Author) (bs : list Book)
  (us : list User) (b : Book) :
  booksNamed m (mkDb au (bs ++ [b]) us)
  = booksNamed m (mkDb au bs us)
    + (if AuthorRef_eq_dec (b_author b) (RefName m) then 1 else 0).
Proof.
  unfold booksNamed. cbn [bookDocs]. rewrite map_app, count_occ_app.
  cbn [map count_occ]. destruct (AuthorRef_eq_dec _ _); reflexivity.
Qed.

Lemma counters_agree_addBook_B (models : Models) (args : AddBookArgs)
  (ctx : Context) (s : State) :
  accepts_all models -> keeps_names models ->
  currentUser ctx <> None ->
  pending s = [] ->
  ids_unique s -> names_unique (db s) -> counters_agree (db s) ->
  counters_agree
    (db (settle models (snd (VariantB.addBook models args ctx s)))).
Proof.
  intros [HvA HvB] Hkeep Hctx Hp Hids Hnames [Hc Hb].
  rewrite (addBook_B_settled models args ctx s Hctx Hp). cbn [db].
  rewrite HvB. unfold bookB. rewrite (Hkeep (author args)).
  destruct s as [[au bs us] n p q].
  cbn [db next_oid pubsub pending authorDocs bookDocs userDocs] in *.
  unfold names_unique in Hnames. cbn [authorDocs] in Hnames.
  destruct (Author_findOne (Some (author args)) (mkDb au bs us)) as [a|]
    eqn:Hfind.
  - destruct (findOne_split _ _ _ Hfind) as (l1 & l2 & Hsplit & Hn & _).
    cbn [authorDocs] in Hsplit. subst au.
    assert (Hin : In a (l1 ++ a :: l2)) by (apply in_or_app; right; now left).
    rewrite (Hc a Hin). cbv zeta. rewrite HvA.
    rewrite (update_by_id_at _ l1 l2 a (proj1 Hids)).
    assert (Hother : forall x, In x l1 \/ In x l2 -> a_name x <> a_name a).
    { intros x Hx E. rewrite map_app in Hnames. cbn [map] in Hnames.
      apply NoDup_remove_2 in Hnames. apply Hnames.
      rewrite <- E, <- map_app. apply in_map. apply in_or_app. exact Hx. }
    split.
    + intros x Hx. apply in_app_or in Hx. cbn [authorDocs bookDocs] in *.
      rewrite booksNamed_add. cbn [b_author].
      destruct Hx as [Hx|[<-|Hx]].
      * destruct (AuthorRef_eq_dec _ _) as [[= E]|_].
        -- elim (Hother x (or_introl Hx)). congruence.
        -- rewrite Nat.add_0_r.
           rewrite (Hc x (in_or_app _ _ _ (or_introl Hx))). reflexivity.
      * cbn [a_name a_bookCount].
        destruct (AuthorRef_eq_dec _ _) as [_|E]; [|elim E; now rewrite Hn].
        f_equal. unfold booksNamed. cbn [bookDocs]. lia.
      * destruct (AuthorRef_eq_dec _ _) as [[= E]|_].
        -- elim (Hother x (or_intror Hx)). congruence.
        -- assert (Hx' : In x (l1 ++ a :: l2))
             by (apply in_or_app; right; now right).
           rewrite Nat.add_0_r, (Hc x Hx'). reflexivity.
    + intros b Hin'. cbn [authorDocs bookDocs] in *.
      apply in_app_or in Hin'.
      assert (Hnew : In (mkAuthor (a_id a) (a_name a) (a_born a)
                                  (Some (Z.of_nat
                                     (booksNamed (a_name a)
                                        (mkDb (l1 ++ a :: l2) bs us)) + 1)%Z))
                        (l1 ++ mkAuthor (a_id a) (a_name a) (a_born a)
                                  (Some (Z.of_nat
                                     (booksNamed (a_name a)
                                        (mkDb (l1 ++ a :: l2) bs us)) + 1)%Z)
                            :: l2))
        by (apply in_or_app; right; now left).
      destruct Hin' as [Hold|[<-|[]]].
      * destruct (Hb b Hold) as (x & Hx & Hr).
        apply in_app_or in Hx. destruct Hx as [Hx|[<-|Hx]].
        -- exists x. split; [apply in_or_app; now left | exact Hr].
        -- eexists. split; [exact Hnew | exact Hr].
        -- exists x. split; [apply in_or_app; right; now right | exact Hr].
      * eexists. split; [exact Hnew|]. cbn [b_author a_name].
        now rewrite Hn.
  - rewrite HvA. pose proof (findOne_none_names _ _ Hfind) as Hfresh.
    cbn [authorDocs] in Hfresh.
    split.
    + intros x Hx. cbn [authorDocs bookDocs] in *. apply in_app_or in Hx.
      rewrite booksNamed_add. cbn [b_author].
      destruct Hx as [Hx|[<-|[]]].
      * destruct (AuthorRef_eq_dec _ _) as [[= E]|_].
        -- elim Hfresh. rewrite E. now apply in_map.
        -- rewrite Nat.add_0_r, (Hc x Hx). reflexivity.
      * cbn [authorB a_name a_bookCount].
        destruct (AuthorRef_eq_dec _ _) as [_|E]; [|now elim E].
        assert (Hzero : booksNamed (author args) (mkDb au bs us) = 0).
        { apply count_occ_not_In. intros Hin.
          apply in_map_iff in Hin. destruct Hin as (b & Hr & Hbin).
          destruct (Hb b Hbin) as (y & Hy & Hr'). apply Hfresh.
          rewrite Hr in Hr'. injection Hr' as ->. now apply in_map. }
        unfold booksNamed in *. cbn [bookDocs] in *. rewrite Hzero.
        reflexivity.
    + intros b Hin'. cbn [authorDocs bookDocs] in *.
      apply in_app_or in Hin'. destruct Hin' as [Hold|[<-|[]]].
      * destruct (Hb b Hold) as (x & Hx & Hr).
        exists x. split; [apply in_or_app; now left | exact Hr].
      * exists (authorB (S n) args).
        split; [apply in_or_app; right; now left | reflexivity].
Qed.

(** What holds of the second file in every state it reaches when the saves
    of each call land before the next one. *)
Lemma store_ok_run_settled_B (models : Models) (ops : list Op) (s : State) :
  pending s = [] -> ids_fresh s -> names_unique (db s) ->
  pending (VariantB.run_settled models ops s) = []
  /\ ids_fresh (VariantB.run_settled models ops s)
  /\ names_unique (db (VariantB.run_settled models ops s)).
Proof.
  revert s. induction ops as [|o ops IH]; intros s Hp Hi Hn;
    [split; [exact Hp | split; [exact Hi | exact Hn]]|].
  cbn [VariantB.run_settled fold_left].
  apply IH.
  - apply settle_nothing_pending.
  - apply ids_fresh_settle. now apply ids_fresh_exec_B.
  - destruct (settled_step_B models o s Hp)
      as [(ctx & args & -> & Hctx)|(E & _ & Ea & _)].
    + cbn [VariantB.exec].
      apply names_unique_addBook_B; try assumption.
      now apply ids_fresh_unique.
    + rewrite E. unfold names_unique in *. now rewrite Ea.
Qed.

Lemma counters_agree_run_settled_B (models : Models) (ops : list Op)
  (s : State) :
  accepts_all models -> keeps_names models ->
  pending s = [] -> ids_fresh s -> names_unique (db s) ->
  counters_agree (db s) ->
  counters_agree (db (VariantB.run_settled models ops s)).
Proof.
  intros Hacc Hkeep. revert s.
  induction ops as [|o ops IH]; intros s Hp Hi Hn Hc; [exact Hc|].
  cbn [VariantB.run_settled fold_left].
  destruct (store_ok_run_settled_B models [o] s Hp Hi Hn) as (Hp' & Hi' & Hn').
  cbn [VariantB.run_settled fold_left] in Hp', Hi', Hn'.
  apply IH; try assumption.
  destruct (settled_step_B models o s Hp)
    as [(ctx & args & -> & Hctx)|(E & _ & Ea & Eb)].
  - cbn [VariantB.exec].
    apply counters_agree_addBook_B; try assumption.
    now apply ids_fresh_unique.
  - rewrite E. unfold counters_agree, booksNamed in *. now rewrite Ea, Eb.
Qed.

(** * Further properties, stated *)

Lemma editAuthor_unauthenticated_both_witness :
  VariantA.editAuthor (mkEditAuthorArgs "Tolkien" 1892) anonymous
                      (afterHobbitA permissive)
  = (Throw (AuthenticationError "not authenticated"), afterHobbitA permissive)
  /\ VariantB.editAuthor permissive (mkEditAuthorArgs "Tolkien" 1892)
                         anonymous (afterHobbitA permissive)
     = (Throw (AuthenticationError "not authenticated"),
        afterHobbitA permissive).
Proof.
  apply (editAuthor_unauthenticated_both permissive
           (mkEditAuthorArgs "Tolkien" 1892) anonymous
           (afterHobbitA permissive)).
  reflexivity.
Defined.

(** X2. createUser either stores a User with the given username and
    favoriteGenre under a fresh id, at the end of the collection, and
    returns it; or, when the data layer refuses the document, throws a
    UserInputError with the data layer's message and the arguments and
    stores nothing.  It never touches the Authors, the Books or the
    notification channel. *)
Theorem createUser_outcome (models : Models) (args : CreateUserArgs)
  (s : State) :
  let user := mkUser (next_oid s) (username args) (favoriteGenre args) in
  let r := createUser models args s in
  authorDocs (db (snd r)) = authorDocs (db s)
  /\ bookDocs (db (snd r)) = bookDocs (db s)
  /\ pubsub (snd r) = pubsub s
  /\ match validateUser models (userDocs (db s)) user with
     | None => fst r = Ok user
               /\ userDocs (db (snd r)) = (userDocs (db s) ++ [user])%list
     | Some msg =>
         fst r = Throw (UserInputError msg (Some (ArgsCreateUser args)))
         /\ userDocs (db (snd r)) = userDocs (db s)
     end.
Proof.
  cbv zeta.
  destruct (createUser_cases models args s) as [[Hv E]|(msg & Hv & E)];
    rewrite E, Hv; repeat split.
Qed.

(** X3. In every state either file can reach from the empty store, the ids
    of the Authors are pairwise distinct, so are those of the Books and
    those of the Users, and every id in the store is below the next one to
    be generated; in the second file, in whatever order the saves it left
    pending land between the calls. *)
Theorem ids_unique_reachable (models : Models) (ops : list Op) :
  ids_unique (VariantA.run models ops init)
  /\ ids_unique (VariantB.run models ops init).
Proof.
  split.
  - apply store_ok_run_A; [apply ids_unique_init | apply names_unique_init].
  - apply ids_fresh_unique, ids_fresh_run_B, ids_fresh_init.
Qed.


(** X29. Without that, the second file does reach a state in which two
    Authors bear the same name: two authenticated addBook calls for the same
    new author, the second handled while the saves of the first are still
    pending, and then the four saves landing. *)
Theorem names_repeat_reachable_B :
  ~ names_unique
      (db (VariantB.run permissive
             [OpAddBook loggedIn theHobbit;
              OpAddBook loggedIn theSilmarillion;
              OpLand 0; OpLand 0; OpLand 0; OpLand 0] init)).
Proof.
  unfold names_unique. cbn. intros H.
  apply NoDup_cons_iff in H. destruct H as [H _]. apply H. now left.
Qed.

(** X5. In every state [library-backend.js] can reach from the empty store
    by addBook, editAuthor and createUser calls, whatever the data layer
    accepts, every Book's author field holds the id of an Author of the
    store. *)
Theorem references_resolve_reachable_A (models : Models) (ops : list Op)
  (b : Book) :
  In b (bookDocs (db (VariantA.run models ops init))) ->
  exists a, In a (authorDocs (db (VariantA.run models ops init)))
            /\ b_author b = RefId (a_id a).
Proof. apply (refs_resolve_run_A models ops). Qed.

Lemma references_resolve_reachable_A_witness :
  exists a,
    In a (authorDocs
            (db (VariantA.run permissive [OpAddBook loggedIn theHobbit] init)))
    /\ b_author hobbitById = RefId (a_id a).
Proof.
  apply (references_resolve_reachable_A permissive
           [OpAddBook loggedIn theHobbit] hobbitById).
  left. reflexivity.
Defined.

(** X6. In every state of the store, allAuthors of [library-backend.js]
    lists the Authors of the store in their order, with their ids, names and
    years of birth, and gives each as bookCount the number of Books whose
    author field is its id. *)
Theorem allAuthors_A_listing (d : Db) :
  map a_id (VariantA.allAuthors d) = map a_id (authorDocs d)
  /\ map a_name (VariantA.allAuthors d) = map a_name (authorDocs d)
  /\ map a_born (VariantA.allAuthors d) = map a_born (authorDocs d)
  /\ forall a, In a (VariantA.allAuthors d) ->
               a_bookCount a = Some (Z.of_nat (booksOf (a_id a) d)).
Proof.
  rewrite allAuthors_A_counts, !map_map. cbn [a_id a_name a_born].
  repeat split.
  intros a Hin. apply in_map_iff in Hin. destruct Hin as (x & <- & _).
  reflexivity.
Qed.

(** ** addBook of [library-backend.js], case by case *)

(** X8. When addBook of [library-backend.js] returns a Book, a Book with
    the same id, title, year and genres, those of the arguments, is the last
    of the stored Books; the author field of the stored Book is the id of an
    Author of the store that bears the name given; the object returned is
    the last payload published, and the author it shows has that name.  No
    save is left pending. *)
Theorem addBook_A_success (models : Models) (args : AddBookArgs)
  (ctx : Context) (s : State) (out : AddedBook) :
  fst (VariantA.addBook models args ctx s) = Ok out ->
  exists b a,
    bookDocs (db (snd (VariantA.addBook models args ctx s)))
    = (bookDocs (db s) ++ [b])%list
    /\ book_shown b = shown out
    /\ shown out = (ab_id out, title args, published args, genres args)
    /\ In a (authorDocs (db (snd (VariantA.addBook models args ctx s))))
    /\ a_name a = author args
    /\ b_author b = RefId (a_id a)
    /\ ab_author_name out = author args
    /\ pubsub (snd (VariantA.addBook models args ctx s))
       = (pubsub s ++ [out])%list
    /\ userDocs (db (snd (VariantA.addBook models args ctx s)))
       = userDocs (db s)
    /\ pending (snd (VariantA.addBook models args ctx s)) = pending s.
Proof.
  intros Hok. destruct (currentUser ctx) as [u|] eqn:Hu.
  2:{ unfold VariantA.addBook in Hok. rewrite Hu in Hok. discriminate Hok. }
  assert (Hctx : currentUser ctx <> None) by (rewrite Hu; discriminate).
  destruct (addBook_A_cases models args ctx s Hctx)
    as [(a & Hf & [(msg & _ & E)|(_ & E)])
       |(_ & [(msg & _ & E)|(_ & [(msg & _ & E)|(_ & E)])])];
    rewrite E in *; cbn [fst snd] in *; try discriminate Hok;
    injection Hok as <-;
    cbn [db pubsub pending authorDocs bookDocs userDocs with_books].
  - destruct (findOne_some _ _ _ Hf) as [Hin Hn].
    exists (bookA (next_oid s) args a), a.
    unfold addedA, bookA, shown, book_shown.
    cbn [b_id b_title b_published b_genres b_author ab_id ab_title
         ab_published ab_genres ab_author_name].
    now repeat split.
  - exists (bookA (S (next_oid s)) args (authorA (next_oid s) args)),
      (authorA (next_oid s) args).
    unfold addedA, bookA, shown, book_shown.
    cbn [b_id b_title b_published b_genres b_author ab_id ab_title
         ab_published ab_genres ab_author_name authorA a_name a_id].
    repeat split. apply in_or_app. right. now left.
Qed.

Lemma addBook_A_success_witness :
  exists b a,
    bookDocs (db (afterHobbitA permissive)) = ([] ++ [b])%list
    /\ book_shown b
       = shown (mkAddedBook 1 "The Hobbit" 1937 ["fantasy"] "Tolkien")
    /\ shown (mkAddedBook 1 "The Hobbit" 1937 ["fantasy"] "Tolkien")
       = (1, "The Hobbit", 1937%Z, ["fantasy"])
    /\ In a (authorDocs (db (afterHobbitA permissive)))
    /\ a_name a = "Tolkien"
    /\ b_author b = RefId (a_id a)
    /\ "Tolkien" = "Tolkien"
    /\ pubsub (afterHobbitA permissive)
       = ([] ++ [mkAddedBook 1 "The Hobbit" 1937 ["fantasy"] "Tolkien"])%list
    /\ userDocs (db (afterHobbitA permissive)) = []
    /\ pending (afterHobbitA permissive) = [].
Proof.
  apply (addBook_A_success permissive theHobbit loggedIn init
           (mkAddedBook 1 "The Hobbit" 1937 ["fantasy"] "Tolkien")).
  reflexivity.
Defined.

(** X9. When an authenticated addBook of [library-backend.js] throws, the
    error is a UserInputError that carries the arguments; no Book is stored
    and nothing is published; the Authors are as before, or one Author of
    the given name was added where none existed. *)
Theorem addBook_A_failure (models : Models) (args : AddBookArgs)
  (ctx : Context) (s : State) (e : Error) :
  currentUser ctx <> None ->
  fst (VariantA.addBook models args ctx s) = Throw e ->
  (exists msg, e = UserInputError msg (Some (ArgsAddBook args)))
  /\ bookDocs (db (snd (VariantA.addBook models args ctx s)))
     = bookDocs (db s)
  /\ pubsub (snd (VariantA.addBook models args ctx s)) = pubsub s
  /\ userDocs (db (snd (VariantA.addBook models args ctx s)))
     = userDocs (db s)
  /\ (authorDocs (db (snd (VariantA.addBook models args ctx s)))
      = authorDocs (db s)
      \/ ((forall a, In a (authorDocs (db s)) -> a_name a <> author args)
          /\ authorDocs (db (snd (VariantA.addBook models args ctx s)))
             = (authorDocs (db s) ++ [authorA (next_oid s) args])%list)).
Proof.
  intros Hctx Hthrow.
  destruct (addBook_A_cases models args ctx s Hctx)
    as [(a & Hf & [(msg & _ & E)|(_ & E)])
       |(Hnone & [(msg & _ & E)|(_ & [(msg & _ & E)|(_ & E)])])];
    rewrite E in *; cbn [fst snd] in *; try discriminate Hthrow;
    injection Hthrow as <-;
    (split; [now exists msg|]);
    cbn [db pubsub authorDocs bookDocs userDocs with_authors];
    repeat (split; [reflexivity|]); try (now left).
  right. split; [|reflexivity].
  intros x Hx E'. apply (findOne_none_names _ _ Hnone).
  rewrite <- E'. now apply in_map.
Qed.

Lemma addBook_A_failure_witness :
  (exists msg,
      UserInputError "Book validation failed" (Some (ArgsAddBook theHobbit))
      = UserInputError msg (Some (ArgsAddBook theHobbit)))
  /\ bookDocs (db (afterHobbitA refusingBooks)) = []
  /\ pubsub (afterHobbitA refusingBooks) = []
  /\ userDocs (db (afterHobbitA refusingBooks)) = []
  /\ (authorDocs (db (afterHobbitA refusingBooks)) = []
      \/ ((forall a, In a [] -> a_name a <> "Tolkien")
          /\ authorDocs (db (afterHobbitA refusingBooks))
             = ([] ++ [authorA 0 theHobbit])%list)).
Proof.
  apply (addBook_A_failure refusingBooks theHobbit loggedIn init
           (UserInputError "Book validation failed"
                           (Some (ArgsAddBook theHobbit)))).
  - discriminate.
  - reflexivity.
Defined.

(** X10. addBook of [library-backend.js] does not undo the Author it
    created: when no Author has the name, the data layer accepts the new
    Author and refuses the Book, the call throws the UserInputError and the
    store keeps the new Author, to which no Book refers. *)
Theorem addBook_A_keeps_new_author (models : Models) (args : AddBookArgs)
  (ctx : Context) (s : State) (msg : string) :
  currentUser ctx <> None ->
  (forall a, In a (authorDocs (db s)) -> a_name a <> author args) ->
  validateAuthor models (authorDocs (db s)) (authorA (next_oid s) args)
  = None ->
  validateBook models (bookDocs (db s))
               (bookA (S (next_oid s)) args (authorA (next_oid s) args))
  = Some msg ->
  ids_generated s ->
  fst (VariantA.addBook models args ctx s)
  = Throw (UserInputError msg (Some (ArgsAddBook args)))
  /\ authorDocs (db (snd (VariantA.addBook models args ctx s)))
     = (authorDocs (db s) ++ [authorA (next_oid s) args])%list
  /\ bookDocs (db (snd (VariantA.addBook models args ctx s)))
     = bookDocs (db s)
  /\ booksOf (next_oid s) (db (snd (VariantA.addBook models args ctx s))) = 0.
Proof.
  intros Hctx Hno Hva Hvb Hgen.
  destruct (addBook_A_cases models args ctx s Hctx)
    as [(a & Hf & _)
       |(_ & [(m & Hva' & _)|(_ & [(m & Hvb' & E)|(Hvb' & _)])])].
  - destruct (findOne_some _ _ _ Hf) as [Hin Hn]. elim (Hno a Hin Hn).
  - rewrite Hva in Hva'. discriminate Hva'.
  - rewrite Hvb in Hvb'. injection Hvb' as <-. rewrite E.
    cbn [fst snd db authorDocs bookDocs with_authors].
    repeat (split; [reflexivity|]).
    unfold booksOf, with_authors. cbn [bookDocs].
    rewrite <- referring_count. now rewrite (no_earlier_book s Hgen).
  - rewrite Hvb in Hvb'. discriminate Hvb'.
Qed.

Lemma addBook_A_keeps_new_author_witness :
  fst (VariantA.addBook refusingBooks theHobbit loggedIn init)
  = Throw (UserInputError "Book validation failed"
                          (Some (ArgsAddBook theHobbit)))
  /\ authorDocs (db (afterHobbitA refusingBooks))
     = ([] ++ [authorA 0 theHobbit])%list
  /\ bookDocs (db (afterHobbitA refusingBooks)) = []
  /\ booksOf 0 (db (afterHobbitA refusingBooks)) = 0.
Proof.
  apply (addBook_A_keeps_new_author refusingBooks theHobbit loggedIn init
           "Book validation failed").
  - discriminate.
  - intros a [].
  - reflexivity.
  - reflexivity.
  - split; simpl; [intros ? [] | intros ? ? []].
Defined.

(** X11. When an Author of the given name is in the store, addBook of
    [library-backend.js] leaves the Authors exactly as they are: it creates
    no second Author of that name and changes none. *)
Theorem addBook_A_existing_author (models : Models) (args : AddBookArgs)
  (ctx : Context) (s : State) (a : Author) :
  In a (authorDocs (db s)) -> a_name a = author args ->
  authorDocs (db (snd (VariantA.addBook models args ctx s)))
  = authorDocs (db s).
Proof.
  intros Hin Hn. destruct (currentUser ctx) as [u|] eqn:Hu.
  2:{ now rewrite (proj1 (addBook_unauthenticated_state models args ctx s
                            Hu)). }
  assert (Hctx : currentUser ctx <> None) by (rewrite Hu; discriminate).
  destruct (addBook_A_cases models args ctx s Hctx)
    as [(a' & _ & [(msg & _ & E)|(_ & E)]) | (Hnone & _)];
    try (rewrite E; reflexivity).
  elim (findOne_none_names _ _ Hnone). rewrite <- Hn. now apply in_map.
Qed.

Lemma addBook_A_existing_author_witness :
  authorDocs (db (snd (VariantA.addBook permissive theSilmarillion loggedIn
                         (afterHobbitA permissive))))
  = authorDocs (db (afterHobbitA permissive)).
Proof.
  apply (addBook_A_existing_author permissive theSilmarillion loggedIn
           (afterHobbitA permissive) (mkAuthor 0 "Tolkien" None None)).
  - left. reflexivity.
  - reflexivity.
Defined.

(** X12. After addBook of [library-backend.js], bookCount is one more when
    the call returned a Book and unchanged when it threw; authorCount is
    unchanged or one more. *)
Theorem counts_after_addBook_A (models : Models) (args : AddBookArgs)
  (ctx : Context) (s : State) :
  bookCount (db (snd (VariantA.addBook models args ctx s)))
  = bookCount (db s)
    + match fst (VariantA.addBook models args ctx s) with
      | Ok _ => 1
      | Throw _ => 0
      end
  /\ authorCount (db s)
     <= authorCount (db (snd (VariantA.addBook models args ctx s)))
     <= S (authorCount (db s)).
Proof.
  unfold bookCount, authorCount. destruct (currentUser ctx) as [u|] eqn:Hu.
  2:{ rewrite (proj1 (addBook_unauthenticated_state models args ctx s Hu)).
      unfold VariantA.addBook. rewrite Hu. cbn. lia. }
  assert (Hctx : currentUser ctx <> None) by (rewrite Hu; discriminate).
  destruct (addBook_A_cases models args ctx s Hctx)
    as [(a & _ & [(msg & _ & E)|(_ & E)])
       |(_ & [(msg & _ & E)|(_ & [(msg & _ & E)|(_ & E)])])];
    rewrite E;
    cbn [fst snd db authorDocs bookDocs with_books with_authors];
    rewrite ?length_app; cbn [List.length]; lia.
Qed.

(** ** The notification channel *)

Lemma published_exec_A (models : Models) (o : Op) (s : State) :
  exists evs,
    pubsub (VariantA.exec models o s) = (pubsub s ++ evs)%list
    /\ map book_shown (bookDocs (db (VariantA.exec models o s)))
       = (map book_shown (bookDocs (db s)) ++ map shown evs)%list.
Proof.
  destruct o as [ctx args|ctx args|args|k]; cbn [VariantA.exec].
  - destruct (currentUser ctx) as [u|] eqn:Hu.
    2:{ rewrite (proj1 (addBook_unauthenticated_state models args ctx s Hu)).
        exists []. rewrite !app_nil_r. now split. }
    assert (Hctx : currentUser ctx <> None) by (rewrite Hu; discriminate).
    destruct (addBook_A_cases models args ctx s Hctx)
      as [(a & _ & [(msg & _ & E)|(_ & E)])
         |(_ & [(msg & _ & E)|(_ & [(msg & _ & E)|(_ & E)])])];
      rewrite E;
      cbn [snd db pubsub pending authorDocs bookDocs with_books with_authors];
      try (exists []; rewrite !app_nil_r; now split).
    + exists [addedA (next_oid s) args a]. rewrite map_app. now split.
    + exists [addedA (S (next_oid s)) args (authorA (next_oid s) args)].
      rewrite map_app. now split.
  - exists []. rewrite !app_nil_r.
    destruct (currentUser ctx) as [u|] eqn:Hu.
    + assert (Hctx : currentUser ctx <> None) by (rewrite Hu; discriminate).
      destruct (editAuthor_A_cases args ctx s Hctx)
        as [[_ E]|(a0 & l & _ & E)]; rewrite E; now split.
    + unfold VariantA.editAuthor. rewrite Hu. now split.
  - exists []. rewrite !app_nil_r.
    destruct (createUser_cases models args s) as [[_ E]|(msg & _ & E)];
      rewrite E; now split.
  - exists []. rewrite !app_nil_r. now split.
Qed.

Lemma published_run_A (models : Models) (ops : list Op) (s : State) :
  exists evs,
    pubsub (VariantA.run models ops s) = (pubsub s ++ evs)%list
    /\ map book_shown (bookDocs (db (VariantA.run models ops s)))
       = (map book_shown (bookDocs (db s)) ++ map shown evs)%list.
Proof.
  revert s. induction ops as [|o ops IH]; intros s.
  - exists []. rewrite !app_nil_r. now split.
  - cbn [VariantA.run fold_left].
    destruct (published_exec_A models o s) as (e1 & P1 & B1).
    destruct (IH (VariantA.exec models o s)) as (e2 & P2 & B2).
    exists (e1 ++ e2)%list. unfold VariantA.run in *.
    rewrite P2, B2, P1, B1, map_app, !app_assoc. now split.
Qed.

(** X13. A subscriber of bookAdded that connects in any state of
    [library-backend.js] is handed, over any sequence of mutations that
    follows, one payload for each Book that was stored in the meantime, in
    the order in which they were stored, and each payload shows the id, the
    title, the year and the genres of its Book. *)
Theorem subscriber_receives_stored_books (models : Models) (ops : list Op)
  (s : State) :
  map book_shown (bookDocs (db (VariantA.run models ops s)))
  = (map book_shown (bookDocs (db s))
     ++ map shown (delivered_since s (VariantA.run models ops s)))%list.
Proof.
  destruct (published_run_A models ops s) as (evs & P & B).
  assert (Hd : delivered_since s (VariantA.run models ops s) = evs).
  { unfold delivered_since. rewrite P, skipn_app, skipn_all, Nat.sub_diag.
    reflexivity. }
  now rewrite Hd.
Qed.

(** ** The bookCounts add up *)

Lemma total_allAuthors_A (bs : list Book) (l : list Author) :
  total_bookCount
    (map (fun author =>
            mkAuthor (a_id author) (a_name author) (a_born author)
              (Some (Z.of_nat
                 (List.length
                    (filter (fun book => equals (a_id author) (b_author book))
                            bs))))) l)
  = Z.of_nat
      (list_sum
         (map (fun i => List.length
                          (filter (fun book => equals i (b_author book)) bs))
              (map a_id l))).
Proof.
  induction l as [|a l IH]; [reflexivity|].
  unfold total_bookCount, list_sum in *.
  cbn [map fold_right a_bookCount]. rewrite IH. lia.
Qed.

Lemma list_sum_step (x : nat) (l : list nat) :
  list_sum (x :: l) = x + list_sum l.
Proof. reflexivity. Qed.

Lemma sum_no_reference (r : AuthorRef) (ids : list ObjectId) :
  (forall i, In i ids -> r <> RefId i) ->
  list_sum (map (fun i => if equals i r then 1 else 0) ids) = 0.
Proof.
  induction ids as [|i ids IH]; intros H; [reflexivity|].
  cbn [map]. rewrite list_sum_step.
  rewrite IH by (intros j Hj; apply H; now right).
  destruct r as [j|n|]; cbn [equals]; [|reflexivity..].
  destruct (Nat.eqb i j) eqn:E; [|reflexivity].
  apply Nat.eqb_eq in E. subst j. elim (H i (or_introl eq_refl)). reflexivity.
Qed.

Lemma sum_one_reference (j : ObjectId) (ids : list ObjectId) :
  NoDup ids -> In j ids ->
  list_sum (map (fun i => if equals i (RefId j) then 1 else 0) ids) = 1.
Proof.
  induction ids as [|i ids IH]; intros Hnd Hin; [destruct Hin|].
  apply NoDup_cons_iff in Hnd. destruct Hnd as [Hi Hnd].
  cbn [map]. rewrite list_sum_step.
  change (equals i (RefId j)) with (Nat.eqb i j).
  destruct Hin as [->|Hin].
  - rewrite Nat.eqb_refl.
    rewrite (sum_no_reference (RefId j) ids); [reflexivity|].
    intros k Hk [= ->]. contradiction.
  - destruct (Nat.eqb i j) eqn:E.
    + apply Nat.eqb_eq in E. subst j. contradiction.
    + now rewrite (IH Hnd Hin).
Qed.

Lemma list_sum_pointwise (f g : ObjectId -> nat) (l : list ObjectId) :
  list_sum (map (fun i => f i + g i) l)
  = list_sum (map f l) + list_sum (map g l).
Proof.
  induction l as [|x l IH]; [reflexivity|].
  cbn [map]. rewrite !list_sum_step, IH. lia.
Qed.

Lemma references_add_up (ids : list ObjectId) (bs : list Book) :
  NoDup ids ->
  (forall b, In b bs -> exists i, In i ids /\ b_author b = RefId i) ->
  list_sum (map (fun i => List.length
                            (filter (fun b => equals i (b_author b)) bs))
                ids)
  = List.length bs.
Proof.
  intros Hnd. induction bs as [|b bs IH]; intros Hr.
  - cbn [filter List.length]. clear Hnd Hr.
    induction ids as [|i ids IHi]; [reflexivity|].
    cbn [map]. now rewrite list_sum_step, IHi.
  - assert (E : map (fun i => List.length
                                (filter (fun b0 => equals i (b_author b0))
                                        (b :: bs))) ids
                = map (fun i => (if equals i (b_author b) then 1 else 0)
                                + List.length
                                    (filter (fun b0 => equals i (b_author b0))
                                            bs)) ids).
    { apply map_ext. intros i. cbn [filter].
      destruct (equals i (b_author b)); reflexivity. }
    rewrite E. clear E.
    rewrite list_sum_pointwise, IH by (intros b' Hb'; apply Hr; now right).
    destruct (Hr b (or_introl eq_refl)) as (j & Hj & ->).
    rewrite (sum_one_reference j ids Hnd Hj). reflexivity.
Qed.

(** X14. In every state [library-backend.js] can reach from the empty
    store, the bookCounts that allAuthors reports add up to bookCount: every
    Book is counted for exactly one Author. *)
Theorem bookCounts_add_up_A (models : Models) (ops : list Op) :
  total_bookCount (VariantA.allAuthors (db (VariantA.run models ops init)))
  = Z.of_nat (bookCount (db (VariantA.run models ops init))).
Proof.
  unfold VariantA.allAuthors, bookCount. rewrite total_allAuthors_A.
  f_equal. apply references_add_up.
  - apply (store_ok_run_A models ops init ids_unique_init names_unique_init).
  - intros b Hb. destruct (refs_resolve_run_A models ops b Hb) as (a & Ha & E).
    exists (a_id a). split; [now apply in_map | exact E].
Qed.

(** ** allBooks *)

Lemma allBooks_author_filter_throws_witness :
  VariantA.allBooks (mkAllBooksArgs (Some "Tolkien") (Some "fantasy"))
                    (db (afterHobbitA permissive))
  = Throw (ReferenceError "books is not defined")
  /\ VariantB.allBooks (mkAllBooksArgs (Some "Tolkien") (Some "fantasy"))
                       (db (afterHobbitA permissive))
     = Throw (ReferenceError "books is not defined").
Proof.
  apply (allBooks_author_filter_throws "Tolkien" (Some "fantasy")
           (db (afterHobbitA permissive))).
  discriminate.
Defined.

Lemma find_genre_nothing (vals : list string) (d : Db) :
  Book_find_in "genre" vals d = [].
Proof. unfold Book_find_in. apply filter_none. intros b _. reflexivity. Qed.

(** X16. With a genre filter that is not the empty string and no author
    filter (absent or the empty string), allBooks of [library-backend.js]
    returns the empty list in every state of the store, and allBooks of the
    second file throws a TypeError. *)
Theorem allBooks_genre_only (qa : option string) (g : string) (d : Db) :
  qa = None \/ qa = Some "" ->
  g <> "" ->
  VariantA.allBooks (mkAllBooksArgs qa (Some g)) d = Ok []
  /\ VariantB.allBooks (mkAllBooksArgs qa (Some g)) d
     = Throw (TypeError "Cannot read property 'find' of undefined").
Proof.
  intros Hqa Hg. apply String.eqb_neq in Hg.
  unfold VariantA.allBooks, VariantB.allBooks, truthy. cbn [q_author q_genre].
  rewrite Hg, find_genre_nothing. destruct Hqa as [->| ->]; split; reflexivity.
Qed.

Lemma allBooks_genre_only_witness :
  VariantA.allBooks (mkAllBooksArgs None (Some "fantasy"))
                    (db (afterHobbitA permissive)) = Ok []
  /\ VariantB.allBooks (mkAllBooksArgs None (Some "fantasy"))
                       (db (afterHobbitA permissive))
     = Throw (TypeError "Cannot read property 'find' of undefined").
Proof.
  apply (allBooks_genre_only None "fantasy" (db (afterHobbitA permissive))).
  - now left.
  - discriminate.
Defined.

(** X17. A filter given as the empty string counts as not given: when each
    of the two filters is absent or empty, allBooks returns every Book of
    the store, in order; [library-backend.js] returns them with their
    authors populated. *)
Theorem allBooks_empty_filters (qa qg : option string) (d : Db) :
  qa = None \/ qa = Some "" ->
  qg = None \/ qg = Some "" ->
  VariantA.allBooks (mkAllBooksArgs qa qg) d
  = Ok (map (populate d) (bookDocs d))
  /\ VariantB.allBooks (mkAllBooksArgs qa qg) d = Ok (bookDocs d).
Proof.
  intros [->| ->] [->| ->]; split; reflexivity.
Qed.

Lemma allBooks_empty_filters_witness :
  VariantA.allBooks (mkAllBooksArgs (Some "") None)
                    (db (afterHobbitA permissive))
  = Ok (map (populate (db (afterHobbitA permissive)))
            (bookDocs (db (afterHobbitA permissive))))
  /\ VariantB.allBooks (mkAllBooksArgs (Some "") None)
                       (db (afterHobbitA permissive))
     = Ok (bookDocs (db (afterHobbitA permissive))).
Proof.
  apply (allBooks_empty_filters (Some "") None
           (db (afterHobbitA permissive))).
  - now right.
  - now left.
Defined.

Lemma find_by_id_unique (l : list Author) (a : Author) :
  NoDup (map a_id l) -> In a l ->
  find (fun x => Nat.eqb (a_id x) (a_id a)) l = Some a.
Proof.
  induction l as [|x l IH]; intros Hnd Hin; [destruct Hin|].
  cbn [map] in Hnd. apply NoDup_cons_iff in Hnd. destruct Hnd as [Hx Hnd].
  cbn [find]. destruct Hin as [->|Hin].
  - now rewrite Nat.eqb_refl.
  - destruct (Nat.eqb (a_id x) (a_id a)) eqn:E; [|now apply IH].
    apply Nat.eqb_eq in E. elim Hx. rewrite E. now apply in_map.
Qed.

(** X18. In every state [library-backend.js] can reach from the empty
    store, the unfiltered allBooks lists the stored Books in order, and each
    entry carries on its author the id the Book refers to together with the
    name of an Author of the store that has this id. *)
Theorem allBooks_resolves_authors_A (models : Models) (ops : list Op) :
  exists l,
    VariantA.allBooks noFilter (db (VariantA.run models ops init)) = Ok l
    /\ map bo_doc l = bookDocs (db (VariantA.run models ops init))
    /\ Forall (fun bo =>
                 exists a,
                   In a (authorDocs (db (VariantA.run models ops init)))
                   /\ b_author (bo_doc bo) = RefId (a_id a)
                   /\ bo_author bo = Some (a_id a, a_name a)) l.
Proof.
  set (d := db (VariantA.run models ops init)).
  exists (map (populate d) (bookDocs d)). split; [reflexivity|]. split.
  - rewrite map_map. cbn [populate bo_doc]. apply map_id.
  - apply Forall_forall. intros bo Hbo.
    apply in_map_iff in Hbo. destruct Hbo as (b & <- & Hb).
    destruct (refs_resolve_run_A models ops b Hb) as (a & Ha & Hr).
    fold d in Ha. unfold populate. cbn [bo_doc bo_author]. rewrite Hr.
    destruct (find (fun x => Nat.eqb (a_id x) (a_id a)) (authorDocs d))
      as [a'|] eqn:Hf.
    + apply find_some in Hf. destruct Hf as [Hin' Hid].
      apply Nat.eqb_eq in Hid. exists a'. rewrite Hid. now repeat split.
    + apply (find_none _ _ Hf) in Ha. rewrite Nat.eqb_refl in Ha.
      discriminate Ha.
Qed.

(** X19. In every state [library-backend.js] can reach from the empty
    store, a Book that addBook returns is listed by the unfiltered allBooks
    right afterwards, as the last entry: under the id of the returned Book,
    with the id of an Author as its author field, and on its author that id
    together with the author name given, the name the returned Book
    shows. *)
Theorem added_book_is_listed_A (models : Models) (ops : list Op)
  (args : AddBookArgs) (ctx : Context) (out : AddedBook) :
  fst (VariantA.addBook models args ctx (VariantA.run models ops init))
  = Ok out ->
  exists l bo i,
    VariantA.allBooks noFilter
      (db (snd (VariantA.addBook models args ctx
                  (VariantA.run models ops init))))
    = Ok (l ++ [bo])%list
    /\ book_shown (bo_doc bo) = shown out
    /\ b_author (bo_doc bo) = RefId i
    /\ bo_author bo = Some (i, author args)
    /\ ab_author_name out = author args.
Proof.
  set (s := VariantA.run models ops init). intros Hok.
  destruct (store_ok_run_A models ops init ids_unique_init names_unique_init)
    as [Hids _]. fold s in Hids.
  destruct (currentUser ctx) as [u|] eqn:Hu.
  2:{ unfold VariantA.addBook in Hok. rewrite Hu in Hok. discriminate Hok. }
  assert (Hctx : currentUser ctx <> None) by (rewrite Hu; discriminate).
  unfold VariantA.allBooks, noFilter.
  cbn [q_author q_genre truthy].
  destruct (addBook_A_cases models args ctx s Hctx)
    as [(a & Hf & [(msg & _ & E)|(_ & E)])
       |(_ & [(msg & _ & E)|(_ & [(msg & _ & E)|(_ & E)])])];
    rewrite E in *; cbn [fst snd] in *; try discriminate Hok;
    injection Hok as <-;
    cbn [db pubsub authorDocs bookDocs userDocs with_books];
    rewrite map_app; cbn [map].
  - destruct (findOne_some _ _ _ Hf) as [Hin Hn].
    eexists. eexists. exists (a_id a). split; [reflexivity|].
    unfold populate, addedA, bookA, with_books, shown, book_shown.
    cbn [b_author authorDocs bo_doc bo_author b_id b_title b_published
         b_genres ab_id ab_title ab_published ab_genres ab_author_name].
    rewrite (find_by_id_unique _ a (proj1 Hids) Hin). rewrite Hn.
    now repeat split.
  - eexists. eexists. exists (next_oid s). split; [reflexivity|].
    unfold populate, addedA, bookA, shown, book_shown.
    cbn [b_author authorDocs authorA a_id a_name bo_doc bo_author b_id
         b_title b_published b_genres ab_id ab_title ab_published ab_genres
         ab_author_name].
    rewrite find_app.
    rewrite (find_none_all _ (authorDocs (db s))).
    + cbn [find a_id a_name]. rewrite Nat.eqb_refl. now repeat split.
    + intros x Hx. apply Nat.eqb_neq.
      destruct Hids as (_ & _ & _ & Hlt).
      assert (a_id x < next_oid s); [|lia].
      apply Hlt. apply in_or_app. left. now apply in_map.
Qed.

Lemma added_book_is_listed_A_witness :
  exists l bo i,
    VariantA.allBooks noFilter (db (afterHobbitA permissive))
    = Ok (l ++ [bo])%list
    /\ book_shown (bo_doc bo)
       = shown (mkAddedBook 1 "The Hobbit" 1937 ["fantasy"] "Tolkien")
    /\ b_author (bo_doc bo) = RefId i
    /\ bo_author bo = Some (i, "Tolkien")
    /\ "Tolkien" = "Tolkien".
Proof.
  apply (added_book_is_listed_A permissive [] theHobbit loggedIn
           (mkAddedBook 1 "The Hobbit" 1937 ["fantasy"] "Tolkien")).
  reflexivity.
Defined.

(** ** editAuthor *)

(** X20. When the ids of the Authors are distinct, an authenticated
    editAuthor of [library-backend.js] on a name that an Author bears sets
    born on the first Author of that name and changes nothing else: its
    other fields, the other Authors, the Books, the Users and the
    notification channel are as before.  The call returns no value. *)
Theorem editAuthor_A_sets_born (args : EditAuthorArgs) (ctx : Context)
  (s : State) (l1 l2 : list Author) (a0 : Author) :
  currentUser ctx <> None ->
  NoDup (map a_id (authorDocs (db s))) ->
  authorDocs (db s) = (l1 ++ a0 :: l2)%list ->
  a_name a0 = name args ->
  (forall x, In x l1 -> a_name x <> name args) ->
  VariantA.editAuthor args ctx s
  = (Ok None,
     mkState (mkDb (l1 ++ mkAuthor (a_id a0) (a_name a0)
                                   (Some (setBornTo args))
                                   (a_bookCount a0) :: l2)
                   (bookDocs (db s)) (userDocs (db s)))
             (next_oid s) (pubsub s) (pending s)).
Proof.
  intros Hctx Hnd Hsplit Hn Hl1.
  assert (Hfound : Author_find_name_in (name args) (db s)
                   = a0 :: filter (fun a => String.eqb (a_name a) (name args))
                                  l2).
  { unfold Author_find_name_in. rewrite Hsplit, filter_app.
    rewrite (filter_none _ l1)
      by (intros x Hx; apply String.eqb_neq; now apply Hl1).
    cbn [app filter]. now rewrite Hn, String.eqb_refl. }
  destruct (editAuthor_A_cases args ctx s Hctx)
    as [[Hnil _]|(a0' & l & Hf & E)].
  - rewrite Hfound in Hnil. discriminate Hnil.
  - rewrite Hfound in Hf. injection Hf as <- _. rewrite E.
    rewrite Hsplit in *. now rewrite (update_by_id_at _ l1 l2 a0 Hnd).
Qed.

Lemma editAuthor_A_sets_born_witness :
  VariantA.editAuthor (mkEditAuthorArgs "Tolkien" 1892) loggedIn
                      (afterHobbitA permissive)
  = (Ok None,
     mkState (mkDb [mkAuthor 0 "Tolkien" (Some 1892%Z) None] [hobbitById] [])
             2 [mkAddedBook 1 "The Hobbit" 1937 ["fantasy"] "Tolkien"] []).
Proof.
  apply (editAuthor_A_sets_born (mkEditAuthorArgs "Tolkien" 1892) loggedIn
           (afterHobbitA permissive) [] [] (mkAuthor 0 "Tolkien" None None)).
  - discriminate.
  - repeat constructor. intros [].
  - reflexivity.
  - reflexivity.
  - intros x [].
Defined.

(** X21. An authenticated editAuthor of [library-backend.js] on a name that
    no Author bears throws a UserInputError that carries the arguments, and
    leaves the whole state as it was. *)
Theorem editAuthor_A_unknown_name (args : EditAuthorArgs) (ctx : Context)
  (s : State) :
  currentUser ctx <> None ->
  (forall a, In a (authorDocs (db s)) -> a_name a <> name args) ->
  exists msg,
    VariantA.editAuthor args ctx s
    = (Throw (UserInputError msg (Some (ArgsEditAuthor args))), s).
Proof.
  intros Hctx Hno.
  destruct (editAuthor_A_cases args ctx s Hctx)
    as [[_ E]|(a0 & l & Hf & _)]; [eexists; exact E|].
  unfold Author_find_name_in in Hf.
  rewrite filter_none in Hf; [discriminate Hf|].
  intros x Hx. apply String.eqb_neq. now apply Hno.
Qed.

Lemma editAuthor_A_unknown_name_witness :
  exists msg,
    VariantA.editAuthor (mkEditAuthorArgs "Nobody" 1900) loggedIn
                        (afterHobbitA permissive)
    = (Throw (UserInputError msg
                (Some (ArgsEditAuthor (mkEditAuthorArgs "Nobody" 1900)))),
       afterHobbitA permissive).
Proof.
  apply (editAuthor_A_unknown_name (mkEditAuthorArgs "Nobody" 1900) loggedIn
           (afterHobbitA permissive)).
  - discriminate.
  - intros a [<-|[]]. discriminate.
Defined.

(** X22. editAuthor of the second file never changes the state: an
    authenticated call returns null whatever the store holds, also when an
    Author bears the given name. *)
Theorem editAuthor_B_never_updates (models : Models) (args : EditAuthorArgs)
  (ctx : Context) (s : State) :
  VariantB.editAuthor models args ctx s
  = (match currentUser ctx with
     | Some _ => Ok None
     | None => Throw (AuthenticationError "not authenticated")
     end, s).
Proof.
  unfold VariantB.editAuthor, VariantB.args_author.
  destruct (currentUser ctx); reflexivity.
Qed.

(** ** The second addBook *)

Lemma addBook_B_returns_witness :
  fst (VariantB.addBook refusing theHobbit loggedIn init)
  = Ok (mkBook 0 "The Hobbit" 1937 (RefName "Tolkien") ["fantasy"])
  /\ db (snd (VariantB.addBook refusing theHobbit loggedIn init)) = db init.
Proof.
  apply (addBook_B_returns refusing theHobbit loggedIn init).
  discriminate.
Defined.

(** X24. With a data layer that accepts every Author and every Book and a
    Book schema that keeps the name at the author path, in every state the
    second file reaches from the empty store when the saves of each call
    have landed before the next call starts, each Author's stored bookCount
    is the number of Books that hold the Author's name in their author
    field, and every Book holds the name of an Author. *)
Theorem counters_agree_reachable_B (models : Models) (ops : list Op) :
  accepts_all models -> keeps_names models ->
  counters_agree (db (VariantB.run_settled models ops init)).
Proof.
  intros Hacc Hkeep. apply counters_agree_run_settled_B; try assumption.
  - reflexivity.
  - apply ids_fresh_init.
  - apply names_unique_init.
  - split; intros ? [].
Qed.

Lemma counters_agree_reachable_B_witness :
  counters_agree
    (db (VariantB.run_settled permissive
           [OpAddBook loggedIn theHobbit; OpAddBook loggedIn theSilmarillion]
           init)).
Proof.
  apply (counters_agree_reachable_B permissive
           [OpAddBook loggedIn theHobbit; OpAddBook loggedIn theSilmarillion]).
  - split; intros; reflexivity.
  - intros n. reflexivity.
Defined.

(** ** Tokens and contexts *)

Lemma findById_unique (d : Db) (u : User) :
  NoDup (map u_id (userDocs d)) -> In u (userDocs d) ->
  User_findById (u_id u) d = Some u.
Proof.
  unfold User_findById.
  induction (userDocs d) as [|x l IH]; intros Hnd Hin; [destruct Hin|].
  cbn [map] in Hnd. apply NoDup_cons_iff in Hnd. destruct Hnd as [Hx Hnd].
  cbn [find]. destruct Hin as [->|Hin].
  - now rewrite Nat.eqb_refl.
  - destruct (Nat.eqb (u_id x) (u_id u)) eqn:E; [|now apply IH].
    apply Nat.eqb_eq in E. elim Hx. rewrite E. now apply in_map.
Qed.

(** X25. A token that login returns authenticates its User: when the ids of
    the Users are distinct, the context built from the header "Bearer "
    followed by the token has as currentUser a User of the store with the
    username given to login, and me returns that User. *)
Theorem login_token_authenticates (jwt : Jwt) (args : LoginArgs) (d : Db)
  (tok : Token) :
  verifies_own_tokens jwt ->
  NoDup (map u_id (userDocs d)) ->
  login jwt args d = Ok tok ->
  exists user,
    In user (userDocs d)
    /\ u_username user = l_username args
    /\ context jwt (Some (bearer tok)) d
       = Ok (Some (mkContext (Some user)))
    /\ me (requestContext (Some (mkContext (Some user)))) = Some user.
Proof.
  intros Hjwt Hnd Hlogin. unfold login, User_findOne in Hlogin.
  destruct (find _ (userDocs d)) as [user|] eqn:Hfind; [|discriminate Hlogin].
  apply find_some in Hfind. destruct Hfind as [Hin Hname].
  apply String.eqb_eq in Hname.
  destruct (negb (String.eqb (password args) "password"));
    [discriminate Hlogin|]. injection Hlogin as <-.
  exists user. repeat split; try assumption.
  unfold context, bearer. cbn [authorization value].
  destruct (bearer_test "Bearer "
              (sign jwt (mkPayload (u_username user) (u_id user))
                    (SECRET jwt)) eq_refl) as [Ht Hsub].
  rewrite Ht, Hsub, Hjwt. cbn [p_id].
  now rewrite (findById_unique d user Hnd Hin).
Qed.

Lemma login_token_authenticates_witness :
  exists user,
    In user [someUser]
    /\ u_username user = "reader"
    /\ context toyJwt (Some (bearer (mkToken ".reader")))
               (mkDb [] [] [someUser])
       = Ok (Some (mkContext (Some user)))
    /\ me (requestContext (Some (mkContext (Some user)))) = Some user.
Proof.
  apply (login_token_authenticates toyJwt (mkLoginArgs "reader" "password")
           (mkDb [] [] [someUser]) (mkToken ".reader")).
  - intros [u n]. simpl. rewrite parse_unary_unary. reflexivity.
  - repeat constructor. intros [].
  - reflexivity.
Defined.

(** X26. A header with the prefix "Bearer " (in any case of letters) whose
    token does not verify under the secret makes the context function throw
    the verification error: the request does not go on as an anonymous
    one. *)
Theorem context_rejects_bad_token (jwt : Jwt) (pre t : string) (d : Db) :
  toLowerCase pre = "bearer " ->
  verify jwt t (SECRET jwt) = None ->
  exists msg,
    context jwt (Some (mkRequest (Some (pre ++ t)))) d
    = Throw (JsonWebTokenError msg).
Proof.
  intros Hp Hv. unfold context. cbn [authorization].
  destruct (bearer_test pre t Hp) as [Ht Hsub].
  rewrite Ht, Hsub, Hv. eexists. reflexivity.
Qed.

Lemma context_rejects_bad_token_witness :
  exists msg,
    context toyJwt (Some (mkRequest (Some "bearer not-a-token")))
            (mkDb [] [] [someUser])
    = Throw (JsonWebTokenError msg).
Proof.
  apply (context_rejects_bad_token toyJwt "bearer " "not-a-token"
           (mkDb [] [] [someUser])); reflexivity.
Defined.

(** X27. A token that verifies but names the id of no User gives a context
    without current user: me returns nothing, and addBook and editAuthor of
    both files refuse the request with AuthenticationError. *)
Theorem token_of_unknown_user (jwt : Jwt) (models : Models) (p : Payload)
  (d : Db) :
  verifies_own_tokens jwt ->
  (forall u, In u (userDocs d) -> u_id u <> p_id p) ->
  exists c,
    context jwt (Some (bearer (mkToken (sign jwt p (SECRET jwt))))) d = Ok c
    /\ me (requestContext c) = None
    /\ (forall args s,
           fst (VariantA.addBook models args (requestContext c) s)
           = Throw (AuthenticationError "not authenticated")
           /\ fst (VariantB.addBook models args (requestContext c) s)
              = Throw (AuthenticationError "not authenticated"))
    /\ (forall args s,
           fst (VariantA.editAuthor args (requestContext c) s)
           = Throw (AuthenticationError "not authenticated")
           /\ fst (VariantB.editAuthor models args (requestContext c) s)
              = Throw (AuthenticationError "not authenticated")).
Proof.
  intros Hjwt Hno. exists (Some (mkContext None)). split.
  - unfold context, bearer. cbn [authorization value].
    destruct (bearer_test "Bearer " (sign jwt p (SECRET jwt)) eq_refl)
      as [Ht Hsub].
    rewrite Ht, Hsub, Hjwt. unfold User_findById.
    rewrite find_none_all; [reflexivity|].
    intros u Hu. apply Nat.eqb_neq. now apply Hno.
  - repeat split.
Qed.

Lemma token_of_unknown_user_witness :
  exists c,
    context toyJwt (Some (bearer (mkToken "III.ghost")))
            (mkDb [] [] [someUser]) = Ok c
    /\ me (requestContext c) = None
    /\ (forall args s,
           fst (VariantA.addBook permissive args (requestContext c) s)
           = Throw (AuthenticationError "not authenticated")
           /\ fst (VariantB.addBook permissive args (requestContext c) s)
              = Throw (AuthenticationError "not authenticated"))
    /\ (forall args s,
           fst (VariantA.editAuthor args (requestContext c) s)
           = Throw (AuthenticationError "not authenticated")
           /\ fst (VariantB.editAuthor permissive args (requestContext c) s)
              = Throw (AuthenticationError "not authenticated")).
Proof.
  apply (token_of_unknown_user toyJwt permissive (mkPayload "ghost" 3)
           (mkDb [] [] [someUser])).
  - intros [u n]. simpl. rewrite parse_unary_unary. reflexivity.
  - intros u [<-|[]]. discriminate.
Defined.

(** X7. Once createUser has stored a User, login with that username and the
    password "password" returns a token, and the token verifies to that
    username. *)
Theorem createUser_then_login (models : Models) (jwt : Jwt)
  (args : CreateUserArgs) (s : State) (user : User) :
  verifies_own_tokens jwt ->
  fst (createUser models args s) = Ok user ->
  exists tok payload,
    login jwt (mkLoginArgs (username args) "password")
          (db (snd (createUser models args s))) = Ok tok
    /\ verify jwt (value tok) (SECRET jwt) = Some payload
    /\ p_username payload = username args.
Proof.
  intros Hjwt Hok.
  destruct (createUser_cases models args s) as [[_ E]|(msg & _ & E)];
    rewrite E in *; cbn [fst snd] in *; [|discriminate Hok].
  unfold login, User_findOne. cbn [db userDocs l_username password].
  destruct (find _ (userDocs (db s) ++ _)) as [found|] eqn:Hfind.
  - apply find_some in Hfind. destruct Hfind as [_ Hname].
    apply String.eqb_eq in Hname.
    change (String.eqb "password" "password") with true. cbn [negb].
    eexists. eexists. split; [reflexivity|]. cbn [value].
    rewrite Hjwt. split; [reflexivity | exact Hname].
  - exfalso.
    assert (Hin : In (mkUser (next_oid s) (username args)
                             (favoriteGenre args))
                     (userDocs (db s)
                      ++ [mkUser (next_oid s) (username args)
                                 (favoriteGenre args)]))
      by (apply in_or_app; right; now left).
    apply (find_none _ _ Hfind) in Hin. cbn [u_username] in Hin.
    rewrite String.eqb_refl in Hin. discriminate Hin.
Qed.

Lemma createUser_then_login_witness :
  exists tok payload,
    login toyJwt (mkLoginArgs "reader" "password")
          (db (snd (createUser permissive (mkCreateUserArgs "reader" "fantasy")
                      init))) = Ok tok
    /\ verify toyJwt (value tok) (SECRET toyJwt) = Some payload
    /\ p_username payload = "reader".
Proof.
  apply (createUser_then_login permissive toyJwt
           (mkCreateUserArgs "reader" "fantasy") init
           (mkUser 0 "reader" "fantasy")).
  - intros [u n]. simpl. rewrite parse_unary_unary. reflexivity.
  - reflexivity.
Defined.
